(** * similar_images: the feature cache and the cosine ranking of [app.py]

    A shallow embedding of the Streamlit script [src/app.py]:
    the corpus scanner [get_all_image_files], the feature store
    [compute_and_cache_features] / [load_image_features], the ranker
    [find_similar_images] and the script body that materialises an
    uploaded image under [temp/].

    Conventions.
    - Python [str] values are Rocq [string]s (sequences of 8-bit characters);
      [str.lower] acts on the letters [A]..[Z]; paths are joined as
      [posixpath] does.
    - numpy / sklearn floating-point arrays are lists (of lists) of real
      numbers: rounding, NaN and infinities are idealised away.
    - The library functions the script calls are modelled by what they
      document: [os.walk], [sorted], sklearn's [normalize] and
      [cosine_similarity] (with [check_array]), [np.save] / [np.load].
      [np.argsort] and the embedding model are parameters: the first is
      bound by [argsort_spec], the second is any function from a path to an
      embedding or an exception.
    - A Python call either returns or raises: [outcome].  Code that reads or
      writes the disk or the Streamlit page runs in the monad [M] over
      [world]. *)

From Stdlib Require Import List String Ascii Bool Arith ZArith Lia.
From Stdlib Require Import Permutation Sorted.
From Stdlib Require Import Reals Lra.
Import ListNotations.

Set Implicit Arguments.

(* ================================================================== *)
(** ** Python strings *)
(* ================================================================== *)

Module PyStr.

Open Scope string_scope.

(** [c.lower()] for one character: only [A]..[Z] change. *)
Definition lower_ascii (c : ascii) : ascii :=
  let n := nat_of_ascii c in
  if (65 <=? n)%nat && (n <=? 90)%nat then ascii_of_nat (n + 32) else c.

(** [s.lower()] *)
Fixpoint lower (s : string) : string :=
  match s with
  | EmptyString => EmptyString
  | String c s' => String (lower_ascii c) (lower s')
  end.

(** [s.startswith(p)] *)
Fixpoint startswith (s p : string) : bool :=
  match p, s with
  | EmptyString, _ => true
  | String _ _, EmptyString => false
  | String a p', String b s' => Ascii.eqb a b && startswith s' p'
  end.

(** [s.endswith(suf)]: [s] is [suf], or the tail of [s] ends with [suf]. *)
Fixpoint endswith (s suf : string) : bool :=
  (s =? suf) ||
  match s with
  | EmptyString => false
  | String _ s' => endswith s' suf
  end.

(** [s.endswith(t)] for a tuple [t] of suffixes. *)
Definition endswith_any (s : string) (sufs : list string) : bool :=
  existsb (endswith s) sufs.

(** [os.path.join(a, b)] of [posixpath]. *)
Definition join (a b : string) : string :=
  if startswith b "/" then b
  else if (a =? EmptyString) || endswith a "/" then a ++ b
  else a ++ "/" ++ b.

(** Python compares strings lexicographically, character code by
    character code: [String.leb]. *)
Definition str_le (a b : string) : Prop := String.leb a b = true.

Lemma ascii_compare_refl (a : ascii) : Ascii.compare a a = Eq.
Proof. unfold Ascii.compare. apply N.compare_refl. Qed.

Lemma ascii_compare_lt_trans (a b c : ascii) :
  Ascii.compare a b = Lt -> Ascii.compare b c = Lt -> Ascii.compare a c = Lt.
Proof.
  unfold Ascii.compare. rewrite !N.compare_lt_iff. lia.
Qed.

Lemma compare_refl (s : string) : String.compare s s = Eq.
Proof.
  induction s as [|c s IH]; simpl; [reflexivity|].
  now rewrite ascii_compare_refl.
Qed.

Lemma compare_lt_trans (s1 : string) :
  forall s2 s3, String.compare s1 s2 = Lt -> String.compare s2 s3 = Lt ->
                String.compare s1 s3 = Lt.
Proof.
  induction s1 as [|a s1 IH]; intros [|b s2] [|c s3]; simpl; try congruence.
  destruct (Ascii.compare a b) eqn:Eab; try discriminate;
    destruct (Ascii.compare b c) eqn:Ebc; try discriminate; intros H1 H2.
  - apply Ascii.compare_eq_iff in Eab, Ebc. subst.
    rewrite ascii_compare_refl. eauto.
  - apply Ascii.compare_eq_iff in Eab. subst. now rewrite Ebc.
  - apply Ascii.compare_eq_iff in Ebc. subst. now rewrite Eab.
  - now rewrite (ascii_compare_lt_trans _ _ _ Eab Ebc).
Qed.

Lemma str_le_refl (s : string) : str_le s s.
Proof. unfold str_le, String.leb. now rewrite compare_refl. Qed.

Lemma str_le_trans (a b c : string) : str_le a b -> str_le b c -> str_le a c.
Proof.
  unfold str_le, String.leb.
  destruct (String.compare a b) eqn:Eab; try discriminate;
    destruct (String.compare b c) eqn:Ebc; try discriminate; intros _ _.
  - apply String.compare_eq_iff in Eab, Ebc. subst. now rewrite compare_refl.
  - apply String.compare_eq_iff in Eab. subst. now rewrite Ebc.
  - apply String.compare_eq_iff in Ebc. subst. now rewrite Eab.
  - now rewrite (compare_lt_trans _ _ _ Eab Ebc).
Qed.

Lemma str_le_antisym (a b : string) : str_le a b -> str_le b a -> a = b.
Proof. apply String.leb_antisym. Qed.

Lemma str_le_total (a b : string) : str_le a b \/ str_le b a.
Proof. apply String.leb_total. Qed.

(** [endswith] is the suffix relation. *)
Lemma endswith_spec (s suf : string) :
  endswith s suf = true <-> exists p, s = p ++ suf.
Proof.
  induction s as [|c s IH]; cbn [endswith].
  - rewrite orb_false_r, String.eqb_eq. split.
    + intros <-. now exists EmptyString.
    + intros [[|c p] H]; simpl in H; [now subst | discriminate].
  - rewrite orb_true_iff, String.eqb_eq, IH. split.
    + intros [<- | [p ->]]; [now exists EmptyString | now exists (String c p)].
    + intros [[|c' p] H]; simpl in H; [left; congruence|].
      right. exists p. congruence.
Qed.

Lemma lower_app (a b : string) : lower (a ++ b) = lower a ++ lower b.
Proof. induction a as [|c a IH]; simpl; congruence. Qed.

Lemma lower_length (a : string) : String.length (lower a) = String.length a.
Proof. induction a as [|c a IH]; simpl; congruence. Qed.

Lemma app_length (a b : string) :
  String.length (a ++ b) = (String.length a + String.length b)%nat.
Proof. induction a as [|c a IH]; simpl; congruence. Qed.

Lemma app_inv_length (a : string) :
  forall a' b b', String.length a = String.length a' ->
                  a ++ b = a' ++ b' -> a = a' /\ b = b'.
Proof.
  induction a as [|c a IH]; intros [|c' a'] b b' Hl H; simpl in *;
    try discriminate; [now split|].
  injection H as -> H. injection Hl as Hl.
  destruct (IH _ _ _ Hl H) as [-> ->]. now split.
Qed.

(** Splitting a string whose lower-casing is a concatenation. *)
Lemma lower_split (s : string) :
  forall x y, lower s = x ++ y ->
              exists s1 s2, s = s1 ++ s2 /\ lower s1 = x /\ lower s2 = y.
Proof.
  induction s as [|c s IH]; intros [|d x] y H; simpl in *.
  - exists EmptyString, EmptyString. now subst.
  - discriminate.
  - exists EmptyString, (String c s). now subst.
  - injection H as Hc H. destruct (IH _ _ H) as (s1 & s2 & -> & Hx & Hy).
    exists (String c s1), s2. simpl. now subst.
Qed.

End PyStr.

(* ================================================================== *)
(** ** Python's [sorted] on a list of strings *)
(* ================================================================== *)

Module PySorted.

Import PyStr.

(** [sorted(l)]: the ascending rearrangement of [l].  Python uses a stable
    merge sort; on strings, whose order is total and antisymmetric, every
    sorting algorithm returns the same list ([sorted_unique] below), so the
    insertion sort here is the same function. *)
Fixpoint insert (x : string) (l : list string) : list string :=
  match l with
  | [] => [x]
  | y :: t => if String.leb x y then x :: y :: t else y :: insert x t
  end.

Definition sorted (l : list string) : list string := fold_right insert [] l.

Lemma insert_perm (x : string) (l : list string) :
  Permutation (x :: l) (insert x l).
Proof.
  induction l as [|y t IH]; simpl; [reflexivity|].
  destruct (String.leb x y); [reflexivity|].
  rewrite perm_swap. now constructor.
Qed.

Lemma sorted_perm (l : list string) : Permutation l (sorted l).
Proof.
  induction l as [|x l IH]; simpl; [constructor|].
  rewrite <- insert_perm. now constructor.
Qed.

Lemma insert_sorted (x : string) (l : list string) :
  StronglySorted str_le l -> StronglySorted str_le (insert x l).
Proof.
  induction 1 as [|y t Ht IH Hy]; simpl.
  - repeat constructor.
  - destruct (String.leb x y) eqn:E.
    + constructor; [now constructor|]. constructor; [exact E|].
      eapply Forall_impl; [|exact Hy]. intros z Hz.
      now apply str_le_trans with y.
    + constructor; [exact IH|].
      rewrite <- insert_perm. constructor; [|exact Hy].
      destruct (str_le_total x y) as [H|H]; [unfold str_le in H; congruence|exact H].
Qed.

Lemma sorted_sorted (l : list string) : StronglySorted str_le (sorted l).
Proof.
  induction l as [|x l IH]; simpl; [constructor|]. now apply insert_sorted.
Qed.

(** Two sorted arrangements of the same strings are the same list. *)
Lemma sorted_unique (l1 : list string) :
  forall l2, Permutation l1 l2 ->
             StronglySorted str_le l1 -> StronglySorted str_le l2 -> l1 = l2.
Proof.
  induction l1 as [|x l1 IH]; intros l2 Hp H1 H2.
  - now apply Permutation_nil in Hp.
  - destruct l2 as [|y l2]; [now apply Permutation_sym, Permutation_nil in Hp|].
    inversion H1 as [|? ? H1t H1h]; inversion H2 as [|? ? H2t H2h]; subst.
    assert (x = y) as ->.
    { assert (Hx : In x (y :: l2)) by (eapply Permutation_in; [exact Hp|now left]).
      assert (Hy : In y (x :: l1))
        by (eapply Permutation_in; [symmetry; exact Hp|now left]).
      destruct Hx as [->|Hx]; [reflexivity|].
      destruct Hy as [->|Hy]; [reflexivity|].
      rewrite Forall_forall in H1h, H2h.
      apply str_le_antisym; auto. }
    f_equal. apply IH; auto. eapply Permutation_cons_inv; exact Hp.
Qed.

Lemma sorted_perm_eq (l1 l2 : list string) :
  Permutation l1 l2 -> sorted l1 = sorted l2.
Proof.
  intros Hp. apply sorted_unique; try apply sorted_sorted.
  rewrite <- !sorted_perm. exact Hp.
Qed.

End PySorted.

(* ================================================================== *)
(** ** Corpus scanner: [get_all_image_files] *)
(* ================================================================== *)

Module Scanner.

Import PyStr.
Open Scope string_scope.

(** A directory as [os.walk] traverses it: the names of its non-directory
    entries and its sub-directories, each in the order [os.scandir] happens
    to list them. *)
#[warnings="-register-all"]
Inductive dir : Type :=
| Dir (files : list string) (subdirs : list (string * dir)).

(** [os.walk(top)], top-down: one triple [(dirpath, dirnames, filenames)]
    for [top], then the walks of its sub-directories. *)
Fixpoint os_walk (top : string) (d : dir)
  : list (string * list string * list string) :=
  match d with
  | Dir files subs =>
      (top, map fst subs, files)
        :: flat_map (fun nd => os_walk (join top (fst nd)) (snd nd)) subs
  end.

Definition valid_ext : list string :=
  [".jpg"; ".jpeg"; ".png"; ".bmp"; ".tiff"].

(** The test of line 55: [f.lower().endswith(valid_ext)]. *)
Definition is_image_name (f : string) : bool :=
  endswith_any (lower f) valid_ext.

(** The list [files] as the two loops of lines 53-56 fill it. *)
Definition collect_files (walk : list (string * list string * list string))
  : list string :=
  flat_map (fun t => let '(subdir, _, filenames) := t in
                     map (join subdir) (filter is_image_name filenames)) walk.

(** [get_all_image_files(root_dir)], [d] being the directory at [root_dir]. *)
Definition get_all_image_files (root_dir : string) (d : dir) : list string :=
  PySorted.sorted (collect_files (os_walk root_dir d)).

(** The allow-list of the specification, without the dot. *)
Definition extensions : list string := ["jpg"; "jpeg"; "png"; "bmp"; "tiff"].

(** [f] ends, up to letter case, in a dot and an allowed extension. *)
Definition has_image_ext (f : string) : Prop :=
  exists e stem x, In e extensions /\ f = stem ++ x /\ lower x = "." ++ e.

(** Every file below the directory at [top], with the path of the directory
    that holds it: what "the files under the directory, recursively" are. *)
Fixpoint files_under (top : string) (d : dir) : list (string * string) :=
  match d with
  | Dir files subs =>
      map (pair top) files
        ++ flat_map (fun nd => files_under (join top (fst nd)) (snd nd)) subs
  end.

(** The same directory listed in another order: [os.scandir] promises no
    order for the entries of a directory. *)
Inductive reordered : dir -> dir -> Prop :=
| reordered_refl d : reordered d d
| reordered_trans d1 d2 d3 :
    reordered d1 d2 -> reordered d2 d3 -> reordered d1 d3
| reordered_files fs1 fs2 subs :
    Permutation fs1 fs2 -> reordered (Dir fs1 subs) (Dir fs2 subs)
| reordered_subdirs fs subs1 subs2 :
    Permutation subs1 subs2 -> reordered (Dir fs subs1) (Dir fs subs2)
| reordered_inside fs pre n d d' post :
    reordered d d' ->
    reordered (Dir fs (pre ++ (n, d) :: post)) (Dir fs (pre ++ (n, d') :: post)).

End Scanner.

(* ================================================================== *)
(** ** Properties of the corpus scanner *)
(* ================================================================== *)

Module ScannerFacts.

Import PyStr Scanner.
Local Open Scope string_scope.
Local Open Scope list_scope.

(** Induction on a directory tree, with the hypothesis for every
    sub-directory. *)
Fixpoint dir_rect' (P : dir -> Prop)
  (H : forall fs subs, Forall (fun nd => P (snd nd)) subs -> P (Dir fs subs))
  (d : dir) : P d :=
  match d with
  | Dir fs subs =>
      H fs subs
        ((fix go (l : list (string * dir)) : Forall (fun nd => P (snd nd)) l :=
            match l with
            | [] => Forall_nil _
            | nd :: r => Forall_cons nd (dir_rect' P H (snd nd)) (go r)
            end) subs)
  end.

Lemma valid_ext_extensions : valid_ext = map (append ".") extensions.
Proof. reflexivity. Qed.

Lemma is_image_name_spec (f : string) :
  is_image_name f = true <-> has_image_ext f.
Proof.
  unfold is_image_name, endswith_any, has_image_ext.
  rewrite existsb_exists, valid_ext_extensions. split.
  - intros (suf & Hin & He). apply in_map_iff in Hin as (e & <- & Hin).
    apply endswith_spec in He as (p & Hp).
    apply lower_split in Hp as (stem & x & -> & _ & Hx).
    now exists e, stem, x.
  - intros (e & stem & x & Hin & -> & Hx).
    exists ("." ++ e)%string. split; [now apply in_map|].
    apply endswith_spec. exists (lower stem). now rewrite lower_app, Hx.
Qed.

Definition path_of (sf : string * string) : string := join (fst sf) (snd sf).

Definition image_entry (sf : string * string) : bool := is_image_name (snd sf).

Lemma collect_files_app (w1 w2 : list (string * list string * list string)) :
  collect_files (w1 ++ w2) = collect_files w1 ++ collect_files w2.
Proof. apply flat_map_app. Qed.

Lemma filter_flat_map {A B : Type} (p : B -> bool) (f : A -> list B) (l : list A) :
  filter p (flat_map f l) = flat_map (fun a => filter p (f a)) l.
Proof.
  induction l as [|a l IH]; simpl; [reflexivity|].
  now rewrite filter_app, IH.
Qed.

Lemma map_flat_map {A B C : Type} (g : B -> C) (f : A -> list B) (l : list A) :
  map g (flat_map f l) = flat_map (fun a => map g (f a)) l.
Proof.
  induction l as [|a l IH]; simpl; [reflexivity|].
  now rewrite map_app, IH.
Qed.

Lemma collect_flat_map {A : Type}
  (f : A -> list (string * list string * list string)) (l : list A) :
  collect_files (flat_map f l) = flat_map (fun a => collect_files (f a)) l.
Proof.
  induction l as [|a l IH]; simpl; [reflexivity|].
  now rewrite collect_files_app, IH.
Qed.

(** What the two loops collect is the image files of the tree, joined to
    the path of their directory. *)
Lemma collect_files_walk (d : dir) :
  forall top,
    collect_files (os_walk top d)
    = map path_of (filter image_entry (files_under top d)).
Proof.
  induction d as [fs subs IH] using dir_rect'. intros top.
  cbn [os_walk files_under].
  change (collect_files ((top, map fst subs, fs) :: ?w))
    with (map (join top) (filter is_image_name fs) ++ collect_files w).
  rewrite filter_app, map_app. f_equal.
  - clear IH. induction fs as [|f fs IHf]; simpl; [reflexivity|].
    unfold image_entry at 1. simpl.
    destruct (is_image_name f); simpl; now rewrite IHf.
  - rewrite collect_flat_map, filter_flat_map, map_flat_map.
    induction IH as [|nd subs Hnd _ IHs]; simpl; [reflexivity|].
    now rewrite Hnd, IHs.
Qed.

Lemma files_under_reordered (d d' : dir) :
  reordered d d' ->
  forall top, Permutation (files_under top d) (files_under top d').
Proof.
  induction 1 as [d|d1 d2 d3 _ IH1 _ IH2|fs1 fs2 subs Hp|fs subs1 subs2 Hp
                 |fs pre n d d' post _ IH]; intros top; cbn [files_under].
  - reflexivity.
  - now rewrite IH1.
  - apply Permutation_app_tail. now apply Permutation_map.
  - apply Permutation_app_head. now apply Permutation_flat_map.
  - apply Permutation_app_head. rewrite !flat_map_app. simpl.
    apply Permutation_app_head, Permutation_app_tail, IH.
Qed.

Lemma collect_reordered (d d' : dir) (top : string) :
  reordered d d' ->
  Permutation (collect_files (os_walk top d)) (collect_files (os_walk top d')).
Proof.
  intros H. rewrite !collect_files_walk.
  apply Permutation_map.
  (* a filter of a permutation is a permutation of the filter *)
  generalize (files_under_reordered H top).
  induction 1 as [|x l l' _ IHp|x y l|l1 l2 l3 _ IH1 _ IH2]; simpl.
  - constructor.
  - destruct (image_entry x); [now constructor | exact IHp].
  - destruct (image_entry x), (image_entry y); try reflexivity. apply perm_swap.
  - now rewrite IH1.
Qed.

(** A scan of a small tree. *)
Example scan_small_tree :
  get_all_image_files "images"
    (Dir ["b.JPG"; "notes.txt"; "jpg"; ".png"]
         [("sub", Dir ["a.TiFf"; "c.gif"] []); ("z", Dir [] [])])
  = ["images/.png"; "images/b.JPG"; "images/sub/a.TiFf"].
Proof. reflexivity. Qed.

End ScannerFacts.

(* ================================================================== *)
(** ** Python results: return or raise *)
(* ================================================================== *)

Module Py.

(** An exception, by the name of its class. *)
Inductive exn : Type := Exn (cls : string).

Definition ValueError : exn := Exn "ValueError".
Definition IndexError : exn := Exn "IndexError".
Definition FileNotFoundError : exn := Exn "FileNotFoundError".
Definition UnidentifiedImageError : exn := Exn "UnidentifiedImageError".
(** The errors the specification names. *)
Definition EmptyCorpusError : exn := Exn "EmptyCorpusError".
Definition CacheCorruptError : exn := Exn "CacheCorruptError".

Inductive outcome (A : Type) : Type :=
| Returned (a : A)
| Raised (e : exn).

Arguments Returned {A} a.
Arguments Raised {A} e.

Definition obind {A B : Type} (o : outcome A) (k : A -> outcome B) : outcome B :=
  match o with
  | Returned a => k a
  | Raised e => Raised e
  end.

(** [[f(x) for x in l]], stopping at the first call that raises. *)
Fixpoint omap {A B : Type} (f : A -> outcome B) (l : list A) : outcome (list B) :=
  match l with
  | [] => Returned []
  | x :: t => obind (f x) (fun y => obind (omap f t) (fun ys => Returned (y :: ys)))
  end.

(** [l[:k]] *)
Definition slice_to {A : Type} (l : list A) (k : Z) : list A :=
  if (0 <=? k)%Z then firstn (Z.to_nat k) l
  else firstn (List.length l - Z.to_nat (- k)) l.

(** [l[i]] for [0 <= i]. *)
Definition index {A : Type} (l : list A) (i : nat) : outcome A :=
  match nth_error l i with
  | Some a => Returned a
  | None => Raised IndexError
  end.

End Py.

Declare Scope py_scope.
Delimit Scope py_scope with py.
Notation "x <- c ;; k" := (Py.obind c (fun x => k))
  (at level 61, c at next level, right associativity) : py_scope.

(* ================================================================== *)
(** ** numpy and sklearn on real matrices *)
(* ================================================================== *)

(** The entries of the arrays are modelled as real numbers: sums,
    products, square roots and quotients are exact, and nothing overflows.
    The shape checks, the threshold test of [_handle_zeros_in_scale] and
    the order of the operations are the code's; the rounding and the range
    of float32 and float64 are not represented.  The claims proved below
    are about shapes, lengths, orders, exceptions and which rows are left
    undivided; where one is an equation between numbers (the cosine
    formula of a score), the code meets it up to the rounding of its
    float type.  No bound on a computed norm or score is claimed. *)

Module Linalg.

Import Py.
Local Open Scope R_scope.
Local Open Scope py_scope.

Definition vec : Type := list R.
Definition matrix : Type := list vec.

(** The dot product of two rows; callers check that the lengths agree. *)
Fixpoint dot (u v : vec) : R :=
  match u, v with
  | x :: u', y :: v' => x * y + dot u' v'
  | _, _ => 0
  end.

(** One entry of sklearn's [row_norms(X)]: the Euclidean norm of a row. *)
Definition l2norm (v : vec) : R := sqrt (dot v v).

Definition zeros (n : nat) : vec := repeat 0 n.

Definition ncols (X : matrix) : nat :=
  match X with
  | [] => O
  | r :: _ => List.length r
  end.

Definition rectangular (X : matrix) : bool :=
  forallb (fun r => Nat.eqb (List.length r) (ncols X)) X.

(** sklearn's [check_array] with its defaults: a 2-D array with at least
    one sample and at least one feature, or [ValueError]. *)
Definition check_array (X : matrix) : outcome matrix :=
  if negb (rectangular X) then Raised ValueError
  else if Nat.eqb (List.length X) 0 then Raised ValueError
  else if Nat.eqb (ncols X) 0 then Raised ValueError
  else Returned X.

(** [np.finfo(np.float32).eps]: the embeddings of the model are float32,
    and so is the matrix the build normalizes. *)
Definition eps_float32 : R := / 8388608.

(** [np.finfo(np.float64).eps]: the type the search normalizes in. *)
Definition eps_float64 : R := / 4503599627370496.

Section Sklearn.

(** [np.finfo(dtype).eps] of the arrays' floating-point type. *)
Variable eps : R.

(** sklearn's [_handle_zeros_in_scale] for one norm: a norm below
    [10 * eps] is replaced by 1. *)
Definition handle_zeros_in_scale (s : R) : R :=
  if Rlt_dec s (10 * eps) then 1 else s.

(** One row of [normalize(X)] (L2, [axis=1]): the row divided by its
    norm as [_handle_zeros_in_scale] returns it. *)
Definition normalize_row (v : vec) : vec :=
  let s := handle_zeros_in_scale (l2norm v) in
  map (fun x => x / s) v.

(** [sklearn.preprocessing.normalize(X)] *)
Definition normalize (X : matrix) : outcome matrix :=
  X' <- check_array X ;;
  Returned (map normalize_row X').

(** [sklearn.metrics.pairwise.cosine_similarity(X, Y)]: both arguments are
    checked, their numbers of columns must agree, both are normalized and
    multiplied. *)
Definition cosine_similarity (X Y : matrix) : outcome matrix :=
  X' <- check_array X ;;
  Y' <- check_array Y ;;
  if negb (Nat.eqb (ncols X') (ncols Y')) then Raised ValueError
  else Returned (map (fun x => map (fun y => dot (normalize_row x) (normalize_row y)) Y') X').

End Sklearn.

End Linalg.

(* ================================================================== *)
(** ** [.npy] files: [np.save] and [np.load] *)
(* ================================================================== *)

Module Npy.

Import Py Linalg.

(** A [.npy] file of a 2-D float array: the shape in its header and the
    values, row after row. *)
Record npy_floats : Type := mkNpyFloats {
  npy_rows : nat;
  npy_cols : nat;
  npy_data : list R
}.

(** A [.npy] file of strings (dtype [<U width]): every item takes [width]
    characters, shorter ones are filled up with NUL. *)
Record npy_strings : Type := mkNpyStrings {
  npy_width : nat;
  npy_items : list string
}.

(** [np.save(path, X)] for a 2-D array [X]. *)
Definition np_save_matrix (X : matrix) : npy_floats :=
  mkNpyFloats (List.length X) (ncols X) (List.concat X).

(** The buffer cut into [rows] rows of [cols] values. *)
Fixpoint reshape (rows cols : nat) (data : list R) : matrix :=
  match rows with
  | O => []
  | S r => firstn cols data :: reshape r cols (skipn cols data)
  end.

(** [np.load(path)] of a float file; a buffer that does not fit the shape
    is refused. *)
Definition np_load_matrix (f : npy_floats) : outcome matrix :=
  if Nat.eqb (List.length (npy_data f)) (npy_rows f * npy_cols f)
  then Returned (reshape (npy_rows f) (npy_cols f) (npy_data f))
  else Raised ValueError.

Definition NUL : ascii := Ascii.zero.

(** An item as stored: cut or filled up with NUL to [width] characters. *)
Fixpoint pad (width : nat) (s : string) : string :=
  match width with
  | O => EmptyString
  | S w => match s with
           | EmptyString => String NUL (pad w EmptyString)
           | String c s' => String c (pad w s')
           end
  end.

(** An item as read: numpy drops the NUL characters at its end. *)
Fixpoint strip_nuls (s : string) : string :=
  match s with
  | EmptyString => EmptyString
  | String c s' =>
      match strip_nuls s' with
      | EmptyString => if Ascii.eqb c NUL then EmptyString
                       else String c EmptyString
      | t => String c t
      end
  end.

(** [np.save(path, names)] for a list of strings: the width is the
    length of the longest. *)
Definition np_save_strings (names : list string) : npy_strings :=
  let width := list_max (map String.length names) in
  mkNpyStrings width (map (pad width) names).

(** [np.load(path, allow_pickle=True)] of a string file. *)
Definition np_load_strings (f : npy_strings) : list string :=
  map strip_nuls (npy_items f).

(** A string that numpy reads back as it is. *)
Definition no_trailing_nul (s : string) : Prop := strip_nuls s = s.

End Npy.

(* ================================================================== *)
(** ** Similarity ranker: [find_similar_images] *)
(* ================================================================== *)

Module Ranker.

Import Py Linalg.
Local Open Scope py_scope.

Definition TOP_N : Z := 5.

Section Ranker.

(** [np.finfo(dtype).eps] of the arrays the search works on.  Line 89
    hands [normalize] a Python list, which sklearn turns into a float64
    array, and [cosine_similarity] then works in float64 as well: in the
    application this is float64's [eps], not the float32 one of the
    build. *)
Variable eps : R.

(** [extract_features(path, model)] for the fixed model: the embedding of
    the image at [path], or the exception raised while loading it. *)
Variable extract_features : string -> outcome vec.

(** [np.argsort] with its default [kind]. *)
Variable argsort : list R -> list nat.

(** Lines 88-89: the query embedding, normalized. *)
Definition query_embedding (query_img_path : string) : outcome vec :=
  qf <- extract_features query_img_path ;;
  qn <- normalize eps [qf] ;;
  index qn 0.

(** Line 90: [cosine_similarity([qf], features_db)[0]]. *)
Definition similarities (qf : vec) (features_db : matrix) : outcome (list R) :=
  K <- cosine_similarity eps [qf] features_db ;;
  index K 0.

(** Line 91: [np.argsort(-sims)[:top_n]]. *)
Definition top_indices (sims : list R) (top_n : Z) : list nat :=
  slice_to (argsort (map Ropp sims)) top_n.

(** Line 92: the pair for corpus index [i]. *)
Definition result_entry (filenames_db : list string) (sims : list R) (i : nat)
  : outcome (string * R) :=
  f <- index filenames_db i ;;
  s <- index sims i ;;
  Returned (f, s).

Definition find_similar_images (query_img_path : string) (features_db : matrix)
  (filenames_db : list string) (top_n : Z) : outcome (list (string * R)) :=
  qf <- query_embedding query_img_path ;;
  sims <- similarities qf features_db ;;
  omap (result_entry filenames_db sims) (top_indices sims top_n).

End Ranker.

(** Two stub embedding functions for examples: every image embeds to the
    first unit vector, or to the zero vector. *)
Definition embed_unit_x (path : string) : outcome vec := Returned [1; 0]%R.

Definition embed_zero (path : string) : outcome vec := Returned (zeros 2).

(** What numpy promises of [argsort]: the indices of the array, arranged
    so that the values they select ascend.  The default [kind] promises
    nothing about the order of equal values. *)
Definition key (v : list R) (i : nat) : R := nth i v 0%R.

Definition key_le (v : list R) (i j : nat) : Prop := (key v i <= key v j)%R.

Definition argsort_spec (argsort : list R -> list nat) : Prop :=
  forall v, Permutation (argsort v) (seq 0 (List.length v))
            /\ StronglySorted (key_le v) (argsort v).

(** Two sorting functions that meet [argsort_spec], to show that the
    contract can be met and to run the ranker on examples: insertion of
    the indices [0, 1, ...] in turn, each placed before the first index
    whose value is greater ([strict = true]) or greater or equal
    ([strict = false]).  Neither is numpy's algorithm: which order
    [np.argsort] leaves equal values in is decided inside numpy, and
    nothing below depends on it. *)
Definition goes_before (strict : bool) (x y : R) : bool :=
  if strict then (if Rlt_dec x y then true else false)
  else (if Rle_dec x y then true else false).

Fixpoint insert_index (strict : bool) (v : list R) (i : nat) (l : list nat)
  : list nat :=
  match l with
  | [] => [i]
  | j :: t => if goes_before strict (key v i) (key v j)
              then i :: j :: t
              else j :: insert_index strict v i t
  end.

Definition insertion_argsort (strict : bool) (v : list R) : list nat :=
  fold_left (fun acc i => insert_index strict v i acc) (seq 0 (List.length v)) [].

End Ranker.

(* ================================================================== *)
(** ** The disk, the page, and the code that touches them *)
(* ================================================================== *)

Module Store.

Import Py PyStr Scanner Linalg Npy Ranker.
Local Open Scope string_scope.
Local Open Scope list_scope.

Definition IMAGE_DIR : string := "images".
Definition FEAT_CACHE : string := "features.npy".
Definition NAME_CACHE : string := "filenames.npy".

(** What the script puts on the Streamlit page, as far as the feature
    store is concerned. *)
Inductive ui_event : Type :=
| EvError (msg : string)              (* st.error(msg) *)
| EvProgressNew                       (* st.progress(0) *)
| EvProgress (done total : nat) (text : string)  (* progress.progress(done/total, text) *)
| EvProgressEmpty.                    (* progress.empty() *)

(** The state outside the script: the directory trees [os.walk] finds, the
    two cache artifacts, the files the script has written under [temp/],
    and the page. *)
Record world : Type := mkWorld {
  w_dirs : string -> option dir;
  w_feat_cache : option npy_floats;      (* features.npy *)
  w_name_cache : option npy_strings;     (* filenames.npy *)
  w_temp : list string;
  w_page : list ui_event
}.

(** Stateful Python code: a result or an exception, and the world left
    behind. *)
Definition M (A : Type) : Type := world -> outcome A * world.

Definition ret {A : Type} (a : A) : M A := fun w => (Returned a, w).

Definition raise {A : Type} (e : exn) : M A := fun w => (Raised e, w).

Definition bind {A B : Type} (m : M A) (k : A -> M B) : M B :=
  fun w => match m w with
           | (Returned a, w') => k a w'
           | (Raised e, w') => (Raised e, w')
           end.

Definition lift {A : Type} (o : outcome A) : M A := fun w => (o, w).

Definition emit (ev : ui_event) : M unit :=
  fun w => (Returned tt,
            mkWorld (w_dirs w) (w_feat_cache w) (w_name_cache w) (w_temp w)
                    (w_page w ++ [ev])).

(** [np.save(FEAT_CACHE, features)] *)
Definition save_features (X : matrix) : M unit :=
  fun w => (Returned tt,
            mkWorld (w_dirs w) (Some (np_save_matrix X)) (w_name_cache w)
                    (w_temp w) (w_page w)).

(** [np.save(NAME_CACHE, filenames)] *)
Definition save_filenames (fs : list string) : M unit :=
  fun w => (Returned tt,
            mkWorld (w_dirs w) (w_feat_cache w) (Some (np_save_strings fs))
                    (w_temp w) (w_page w)).

(** [get_all_image_files(image_dir)] on the disk of the world; [os.walk]
    of a path that is no directory yields nothing. *)
Definition scanned (w : world) (image_dir : string) : list string :=
  match w_dirs w image_dir with
  | Some d => get_all_image_files image_dir d
  | None => []
  end.

Definition scan (image_dir : string) : M (list string) :=
  fun w => (Returned (scanned w image_dir), w).

(** The world with more events on the page. *)
Definition with_events (w : world) (evs : list ui_event) : world :=
  mkWorld (w_dirs w) (w_feat_cache w) (w_name_cache w) (w_temp w)
          (w_page w ++ evs).

(** The world with both cache artifacts written. *)
Definition with_caches (w : world) (X : matrix) (fs : list string) : world :=
  mkWorld (w_dirs w) (Some (np_save_matrix X)) (Some (np_save_strings fs))
          (w_temp w) (w_page w).

End Store.

Declare Scope m_scope.
Delimit Scope m_scope with m.
Notation "x <- c ;; k" := (Store.bind c (fun x => k))
  (at level 61, c at next level, right associativity) : m_scope.
Notation "c ;; k" := (Store.bind c (fun _ => k))
  (at level 61, right associativity) : m_scope.

Module FeatureStore.

Import Py PyStr Scanner Linalg Npy Ranker Store.
Local Open Scope string_scope.
Local Open Scope list_scope.
Local Open Scope m_scope.

(** The decimal digits of a number, for the progress text. *)
Fixpoint digits (fuel n : nat) (acc : string) : string :=
  match fuel with
  | O => acc
  | S fuel' =>
      let acc' := String (ascii_of_nat (48 + n mod 10)) acc in
      if Nat.eqb (n / 10) 0 then acc' else digits fuel' (n / 10) acc'
  end.

Definition str_of_nat (n : nat) : string := digits (S n) n EmptyString.

Section FeatureStore.

Variable eps : R.
Variable extract_features : string -> outcome vec.

(** The loop of lines 68-69 over [stqdm(filenames, desc)]: before it
    yields item [i], the generator reports [i + 1] of [n]. *)
Fixpoint extract_loop (desc : string) (i n : nat) (filenames : list string)
  : M (list vec) :=
  match filenames with
  | [] => ret []
  | fn :: rest =>
      emit (EvProgress (i + 1) n
              (desc ++ ": " ++ str_of_nat (i + 1) ++ "/" ++ str_of_nat n)) ;;
      v <- lift (extract_features fn) ;;
      vs <- extract_loop desc (i + 1) n rest ;;
      ret (v :: vs)
  end.

Definition compute_and_cache_features (image_dir : string)
  : M (list string * matrix) :=
  filenames <- scan image_dir ;;
  if Nat.eqb (List.length filenames) 0 then
    emit (EvError ("No image files found in " ++ image_dir
                     ++ " or its subfolders.")) ;;
    ret ([], [])
  else
    emit EvProgressNew ;;
    features <- extract_loop "Extracting folder features" 0
                  (List.length filenames) filenames ;;
    emit EvProgressEmpty ;;
    features <- lift (normalize eps features) ;;
    save_features features ;;
    save_filenames filenames ;;
    ret (filenames, features).

(** [load_image_features(image_dir, model)].  [st.cache_data] only spares
    repeated calls with the same arguments and is left out. *)
Definition load_image_features (image_dir : string) : M (list string * matrix) :=
  fun w =>
    match w_feat_cache w, w_name_cache w with
    | Some feat_file, Some name_file =>
        (filenames <- ret (np_load_strings name_file) ;;
         features <- lift (np_load_matrix feat_file) ;;
         ret (filenames, features)) w
    | _, _ => compute_and_cache_features image_dir w
    end.

End FeatureStore.

End FeatureStore.

(* ================================================================== *)
(** ** The script body: lines 112-145 *)
(* ================================================================== *)

Module Script.

Import Py PyStr Scanner Linalg Ranker Store FeatureStore.
Local Open Scope string_scope.
Local Open Scope list_scope.
Local Open Scope m_scope.

(** What [st.file_uploader] hands over: the name of the file, and whether
    PIL can decode its bytes. *)
Record upload : Type := mkUpload {
  up_name : string;
  up_decodes : bool
}.

(** [os.path.basename(p)]: what follows the last slash. *)
Fixpoint basename_from (acc s : string) : string :=
  match s with
  | EmptyString => acc
  | String c s' =>
      if Ascii.eqb c "/"%char then basename_from EmptyString s'
      else basename_from (acc ++ String c EmptyString) s'
  end.

Definition basename (p : string) : string := basename_from EmptyString p.

(** [l.index(x)] *)
Fixpoint list_index (x : string) (l : list string) : outcome nat :=
  match l with
  | [] => Raised ValueError
  | y :: t => if String.eqb y x then Returned O
              else obind (list_index x t) (fun i => Returned (S i))
  end.

(** [query_img.save(path)]: the file exists afterwards. *)
Definition save_temp (path : string) : M unit :=
  fun w => (Returned tt,
            mkWorld (w_dirs w) (w_feat_cache w) (w_name_cache w)
                    (if existsb (String.eqb path) (w_temp w) then w_temp w
                     else path :: w_temp w)
                    (w_page w)).

(** [os.remove(path)] *)
Definition os_remove (path : string) : M unit :=
  fun w => if existsb (String.eqb path) (w_temp w)
           then (Returned tt,
                 mkWorld (w_dirs w) (w_feat_cache w) (w_name_cache w)
                         (filter (fun p => negb (String.eqb path p)) (w_temp w))
                         (w_page w))
           else (Raised FileNotFoundError, w).

(** [st.stop()] ends the run of the script. *)
Definition st_stop {A : Type} : M A := raise (Exn "StopException").

Section Script.

Variable eps : R.
Variable extract_features : string -> outcome vec.
Variable argsort : list R -> list nat.

(** Whether [Image.open(path)] succeeds for a path of the corpus. *)
Variable opens : string -> bool.

(** [Image.open(path)].  A failure is represented by [FileNotFoundError],
    the exception of a missing file; PIL has others (an unreadable or
    undecodable file), and nothing below depends on which one it is. *)
Definition image_open (path : string) : M unit :=
  if opens path then ret tt else raise FileNotFoundError.

(** The loop of lines 140-142; only [Image.open] can raise in it. *)
Fixpoint show_results (results : list (string * R)) : M unit :=
  match results with
  | [] => ret tt
  | (img_path, _) :: rest => image_open img_path ;; show_results rest
  end.

(** Lines 122-145, from the file uploader to the removal of the temporary
    file: what is read, written and removed on the disk, and what raises.
    The calls that draw on the page ([st.subheader], [st.image],
    [st.columns]: lines 133-134 and 138-142) and [os.makedirs] are left
    out, so the page component of the world says nothing about this
    section. *)
Definition query_section (uploaded : option upload) (selected_path : string)
  (image_feats : matrix) (image_files : list string) : M unit :=
  query_to_use <-
    match uploaded with
    | Some u =>
        (if up_decodes u then ret tt else raise UnidentifiedImageError) ;;
        let query_path := join "temp" (up_name u) in
        save_temp query_path ;;
        ret query_path
    | None =>
        image_open selected_path ;;
        ret selected_path
    end ;;
  results <- lift (find_similar_images eps extract_features argsort
                     query_to_use image_feats image_files TOP_N) ;;
  show_results results ;;
  match uploaded with
  | Some u => os_remove (join "temp" (up_name u))
  | None => ret tt
  end.

(** Lines 112-145; [choice] is the display name picked in the select box
    (the variable [option] of the script). *)
Definition script (choice : string) (uploaded : option upload) : M unit :=
  loaded <- load_image_features eps extract_features IMAGE_DIR ;;
  let image_files := fst loaded in
  let image_feats := snd loaded in
  if Nat.eqb (List.length image_files) 0 then st_stop
  else
    let img_display_names := map basename image_files in
    i <- lift (list_index choice img_display_names) ;;
    selected_path <- lift (index image_files i) ;;
    query_section uploaded selected_path image_feats image_files.

End Script.

End Script.

(* ================================================================== *)
(** ** Properties of the normalization *)
(* ================================================================== *)

Module LinalgFacts.

Import Py Linalg.
Local Open Scope R_scope.

Lemma dot_self_nonneg (v : vec) : 0 <= dot v v.
Proof.
  induction v as [|x v IH]; simpl; [lra|].
  pose proof (Rle_0_sqr x) as Hx. unfold Rsqr in Hx. lra.
Qed.

Lemma l2norm_nonneg (v : vec) : 0 <= l2norm v.
Proof. apply sqrt_pos. Qed.

Lemma dot_zeros_r (u : vec) (n : nat) : dot u (zeros n) = 0.
Proof.
  revert n. induction u as [|x u IH]; intros [|n]; simpl; try reflexivity.
  change (repeat 0 n) with (zeros n). rewrite (IH n). lra.
Qed.

Lemma dot_zeros_l (n : nat) (u : vec) : dot (zeros n) u = 0.
Proof.
  revert u. induction n as [|n IH]; intros [|x u]; simpl; try reflexivity.
  change (repeat 0 n) with (zeros n). rewrite (IH u). lra.
Qed.

Lemma l2norm_zeros (n : nat) : l2norm (zeros n) = 0.
Proof. unfold l2norm. rewrite dot_zeros_r. apply sqrt_0. Qed.

Lemma dot_scaled (s : R) (u : vec) :
  s <> 0 ->
  forall v, dot (map (fun x => x / s) u) (map (fun x => x / s) v)
            = dot u v / (s * s).
Proof.
  intros Hs. induction u as [|x u IH]; intros [|y v]; simpl;
    try (field; exact Hs).
  rewrite IH. field. exact Hs.
Qed.

Lemma eps_float32_pos : 0 < eps_float32.
Proof. unfold eps_float32. lra. Qed.

Section Eps.

Variable eps : R.
Hypothesis eps_pos : 0 < eps.

(** The divisor of [normalize] is never zero. *)
Lemma handle_zeros_in_scale_pos (s : R) : 0 < handle_zeros_in_scale eps s.
Proof.
  unfold handle_zeros_in_scale. destruct (Rlt_dec s (10 * eps)); lra.
Qed.

Lemma handle_zeros_in_scale_small (s : R) :
  s < 10 * eps -> handle_zeros_in_scale eps s = 1.
Proof.
  intros H. unfold handle_zeros_in_scale.
  destruct (Rlt_dec s (10 * eps)); [reflexivity | contradiction].
Qed.

Lemma handle_zeros_in_scale_large (s : R) :
  10 * eps <= s -> handle_zeros_in_scale eps s = s.
Proof.
  intros H. unfold handle_zeros_in_scale.
  destruct (Rlt_dec s (10 * eps)); [lra | reflexivity].
Qed.

Lemma normalize_row_length (v : vec) :
  List.length (normalize_row eps v) = List.length v.
Proof. unfold normalize_row. apply length_map. Qed.

(** A row below the threshold is returned as it is. *)
Lemma normalize_row_small (v : vec) :
  l2norm v < 10 * eps -> normalize_row eps v = v.
Proof.
  intros H. unfold normalize_row. rewrite (handle_zeros_in_scale_small H).
  clear H. induction v as [|x v IH]; simpl; [reflexivity|].
  f_equal; [field | exact IH].
Qed.

Lemma normalize_row_zeros (n : nat) : normalize_row eps (zeros n) = zeros n.
Proof. apply normalize_row_small. rewrite l2norm_zeros. lra. Qed.

(** In exact arithmetic, a row at or above the threshold comes out with
    norm 1. *)
Lemma normalize_row_unit (v : vec) :
  10 * eps <= l2norm v -> l2norm (normalize_row eps v) = 1.
Proof.
  intros H. unfold normalize_row. rewrite (handle_zeros_in_scale_large H).
  assert (Hs : l2norm v <> 0) by lra.
  unfold l2norm at 1. rewrite dot_scaled by exact Hs.
  unfold l2norm. rewrite sqrt_sqrt by apply dot_self_nonneg.
  assert (Hd : dot v v <> 0).
  { intros E. apply Hs. unfold l2norm. rewrite E. apply sqrt_0. }
  replace (dot v v / dot v v) with 1 by (field; exact Hd).
  apply sqrt_1.
Qed.

(** Above the threshold, the product of two normalized rows is the
    cosine of the rows. *)
Lemma dot_scaled_2 (a b : R) (u : vec) :
  a <> 0 -> b <> 0 ->
  forall v, dot (map (fun x => x / a) u) (map (fun x => x / b) v)
            = dot u v / (a * b).
Proof.
  intros Ha Hb. induction u as [|x u IH]; intros [|y v]; simpl;
    try (field; split; assumption).
  rewrite IH. field. split; assumption.
Qed.

Lemma normalized_dot_is_cosine (u v : vec) :
  10 * eps <= l2norm u -> 10 * eps <= l2norm v ->
  dot (normalize_row eps u) (normalize_row eps v)
  = dot u v / (l2norm u * l2norm v).
Proof.
  intros Hu Hv. unfold normalize_row.
  rewrite (handle_zeros_in_scale_large Hu), (handle_zeros_in_scale_large Hv).
  apply dot_scaled_2; lra.
Qed.

(** Normalizing a row above the threshold a second time changes nothing. *)
Lemma normalize_row_idempotent (u : vec) :
  10 * eps <= 1 -> 10 * eps <= l2norm u ->
  normalize_row eps (normalize_row eps u) = normalize_row eps u.
Proof.
  intros H1 Hu. unfold normalize_row at 1.
  rewrite (normalize_row_unit u Hu), (handle_zeros_in_scale_large H1).
  generalize (normalize_row eps u). intros l.
  induction l as [|x l IH]; simpl; [reflexivity|].
  f_equal; [field | exact IH].
Qed.

(** A row of zeros scores 0 against every row. *)
Lemma cosine_zero_row (q : vec) (n : nat) :
  dot (normalize_row eps q) (normalize_row eps (zeros n)) = 0.
Proof. rewrite normalize_row_zeros. apply dot_zeros_r. Qed.

End Eps.

(** [check_array] accepts exactly the non-empty rectangular matrices with
    at least one column, and returns them unchanged. *)
Definition well_shaped (D : nat) (X : matrix) : Prop :=
  X <> [] /\ (1 <= D)%nat /\ Forall (fun r => List.length r = D) X.

Lemma well_shaped_ncols (D : nat) (X : matrix) :
  well_shaped D X -> ncols X = D.
Proof.
  intros (Hne & _ & Hall). destruct X as [|r X]; [contradiction|].
  now inversion Hall.
Qed.

Lemma check_array_ok (D : nat) (X : matrix) :
  well_shaped D X -> check_array X = Returned X.
Proof.
  intros H. pose proof (well_shaped_ncols H) as Hc.
  destruct H as (Hne & HD & Hall). unfold check_array, rectangular.
  replace (forallb _ X) with true.
  - simpl. destruct X as [|r X]; [contradiction|]. simpl.
    simpl in Hc. rewrite Hc. destruct D; [lia | reflexivity].
  - symmetry. apply forallb_forall. intros r Hr. rewrite Hc.
    apply Nat.eqb_eq. rewrite Forall_forall in Hall. now apply Hall.
Qed.

Lemma check_array_returned (X Y : matrix) :
  check_array X = Returned Y -> Y = X /\ well_shaped (ncols X) X.
Proof.
  unfold check_array.
  destruct (rectangular X) eqn:Hr; simpl; [|discriminate].
  destruct (Nat.eqb (List.length X) 0) eqn:Hl; [discriminate|].
  destruct (Nat.eqb (ncols X) 0) eqn:Hc; [discriminate|].
  intros [= <-]. split; [reflexivity|].
  apply Nat.eqb_neq in Hl, Hc. repeat split.
  - intros ->. now apply Hl.
  - lia.
  - apply Forall_forall. intros r Hin. unfold rectangular in Hr.
    rewrite forallb_forall in Hr. now apply Nat.eqb_eq, Hr.
Qed.

End LinalgFacts.

(* ================================================================== *)
(** ** Properties of [np.save] and [np.load] *)
(* ================================================================== *)

Module NpyFacts.

Import Py PyStr Scanner ScannerFacts Linalg LinalgFacts Npy.
Local Open Scope list_scope.
Local Open Scope string_scope.

(** *** Float arrays *)

Lemma concat_rows_length (d : nat) (X : matrix) :
  Forall (fun r => List.length r = d) X ->
  List.length (List.concat X) = (List.length X * d)%nat.
Proof.
  induction 1 as [|r X Hr _ IH]; simpl; [reflexivity|].
  rewrite length_app, IH, Hr. reflexivity.
Qed.

Lemma reshape_concat (d : nat) (X : matrix) :
  Forall (fun r => List.length r = d) X ->
  reshape (List.length X) d (List.concat X) = X.
Proof.
  induction 1 as [|r X Hr _ IH]; simpl; [reflexivity|].
  subst d. f_equal.
  - rewrite firstn_app, Nat.sub_diag, firstn_all. simpl. apply app_nil_r.
  - rewrite skipn_app, Nat.sub_diag, skipn_all. simpl. exact IH.
Qed.

(** A 2-D array is read back as it was written. *)
Lemma np_load_save_matrix (X : matrix) :
  Forall (fun r => List.length r = ncols X) X ->
  np_load_matrix (np_save_matrix X) = Returned X.
Proof.
  intros H. unfold np_load_matrix, np_save_matrix. simpl.
  rewrite (concat_rows_length H), Nat.eqb_refl.
  now rewrite (reshape_concat H).
Qed.

Lemma normalized_rows_length (eps : R) (vs : matrix) :
  Forall (fun r => List.length r = ncols vs) vs ->
  Forall (fun r => List.length r = ncols (map (normalize_row eps) vs))
         (map (normalize_row eps) vs).
Proof.
  intros H.
  assert (Hc : ncols (map (normalize_row eps) vs) = ncols vs).
  { destruct vs as [|r vs]; simpl; [reflexivity|]. apply normalize_row_length. }
  rewrite Hc. apply Forall_forall. intros r Hr.
  apply in_map_iff in Hr as (v & <- & Hv).
  rewrite normalize_row_length. rewrite Forall_forall in H. now apply H.
Qed.

(** *** String arrays *)

Lemma strip_pad_empty (w : nat) : strip_nuls (pad w EmptyString) = EmptyString.
Proof. induction w as [|w IH]; simpl; [reflexivity|]. now rewrite IH. Qed.

Lemma strip_pad (w : nat) :
  forall s, (String.length s <= w)%nat -> strip_nuls (pad w s) = strip_nuls s.
Proof.
  induction w as [|w IH]; intros [|c s] H; simpl in *; try reflexivity.
  - lia.
  - now rewrite strip_pad_empty.
  - rewrite IH by lia. reflexivity.
Qed.

Lemma length_le_list_max (s : string) (l : list string) :
  In s l -> (String.length s <= list_max (map String.length l))%nat.
Proof.
  intros H.
  assert (Hall : Forall (fun k => (k <= list_max (map String.length l))%nat)
                   (map String.length l)) by now apply list_max_le.
  rewrite Forall_forall in Hall. apply Hall. now apply in_map.
Qed.

(** A list of strings is read back with the trailing NULs dropped. *)
Lemma np_load_save_strings (l : list string) :
  np_load_strings (np_save_strings l) = map strip_nuls l.
Proof.
  unfold np_load_strings, np_save_strings. simpl. rewrite map_map.
  apply map_ext_in. intros s Hs. apply strip_pad.
  now apply length_le_list_max.
Qed.

Lemma np_load_save_names (l : list string) :
  Forall no_trailing_nul l -> np_load_strings (np_save_strings l) = l.
Proof.
  intros H. rewrite np_load_save_strings.
  rewrite <- (map_id l) at 2. apply map_ext_in.
  intros s Hs. rewrite Forall_forall in H. now apply H.
Qed.

(** *** The paths of a scan have no NUL at their end *)

Fixpoint ends_non_nul (s : string) : bool :=
  match s with
  | EmptyString => false
  | String c EmptyString => negb (Ascii.eqb c NUL)
  | String _ s' => ends_non_nul s'
  end.

Lemma ends_non_nul_strip (s : string) :
  ends_non_nul s = true -> strip_nuls s = s /\ s <> EmptyString.
Proof.
  induction s as [|c s IH]; [discriminate|].
  destruct s as [|c' s'].
  - simpl. destruct (Ascii.eqb c NUL); [discriminate|]. now split.
  - intros H. change (ends_non_nul (String c' s') = true) in H.
    destruct (IH H) as [Hs Hne]. split; [|discriminate].
    change (match strip_nuls (String c' s') with
            | EmptyString => if Ascii.eqb c NUL then EmptyString
                             else String c EmptyString
            | t => String c t
            end = String c (String c' s')).
    now rewrite Hs.
Qed.

Lemma ends_non_nul_app (a b : string) :
  b <> EmptyString -> ends_non_nul (a ++ b) = ends_non_nul b.
Proof.
  intros Hb. induction a as [|c a IH]; [reflexivity|].
  change (String c a ++ b) with (String c (a ++ b)).
  destruct (a ++ b) as [|c' t] eqn:E.
  - destruct a; simpl in E; [contradiction | discriminate].
  - exact IH.
Qed.

Lemma lower_ascii_nul (c : ascii) :
  Ascii.eqb (lower_ascii c) NUL = Ascii.eqb c NUL.
Proof. destruct c as [[] [] [] [] [] [] [] []]; reflexivity. Qed.

Lemma ends_non_nul_lower (s : string) :
  ends_non_nul (lower s) = ends_non_nul s.
Proof.
  induction s as [|c s IH]; [reflexivity|].
  destruct s as [|c' s']; simpl in *; [now rewrite lower_ascii_nul | exact IH].
Qed.

Lemma image_name_ends_non_nul (f : string) :
  is_image_name f = true -> ends_non_nul f = true.
Proof.
  unfold is_image_name, endswith_any. intros H.
  apply existsb_exists in H as (suf & Hin & He).
  apply endswith_spec in He as (p & Hp).
  rewrite <- ends_non_nul_lower, Hp.
  assert (Hsuf : suf <> EmptyString /\ ends_non_nul suf = true).
  { simpl in Hin.
    destruct Hin as [<-|[<-|[<-|[<-|[<-|[]]]]]]; split;
      (discriminate || reflexivity). }
  destruct Hsuf as [Hne Hs]. now rewrite ends_non_nul_app.
Qed.

Lemma join_ends_non_nul (a f : string) :
  ends_non_nul f = true -> ends_non_nul (join a f) = true.
Proof.
  intros H. assert (Hf : f <> EmptyString) by (intros ->; discriminate).
  unfold join. destruct (startswith f "/"); [exact H|].
  destruct ((a =? EmptyString) || endswith a "/").
  - now rewrite ends_non_nul_app.
  - rewrite ends_non_nul_app; [|destruct f; discriminate].
    now rewrite (ends_non_nul_app "/" Hf).
Qed.

Lemma scan_no_trailing_nul (root_dir : string) (d : dir) :
  Forall no_trailing_nul (get_all_image_files root_dir d).
Proof.
  apply Forall_forall. intros p Hp. unfold get_all_image_files in Hp.
  apply (Permutation_in _ (Permutation_sym (PySorted.sorted_perm _))) in Hp.
  rewrite collect_files_walk in Hp.
  apply in_map_iff in Hp as ([sub f] & <- & Hin).
  apply filter_In in Hin as [_ Himg].
  apply ends_non_nul_strip, join_ends_non_nul, image_name_ends_non_nul.
  exact Himg.
Qed.

End NpyFacts.

(* ================================================================== *)
(** ** Properties of the sorting functions *)
(* ================================================================== *)

Module ArgsortFacts.

Import Py Linalg Ranker.
Local Open Scope R_scope.

Lemma goes_before_le (strict : bool) (x y : R) :
  goes_before strict x y = true -> x <= y.
Proof.
  unfold goes_before. destruct strict.
  - destruct (Rlt_dec x y); [lra | discriminate].
  - destruct (Rle_dec x y); [lra | discriminate].
Qed.

Lemma goes_before_not (strict : bool) (x y : R) :
  goes_before strict x y = false -> y <= x.
Proof.
  unfold goes_before. destruct strict.
  - destruct (Rlt_dec x y); [discriminate | lra].
  - destruct (Rle_dec x y); [discriminate | lra].
Qed.

Lemma insert_index_perm (strict : bool) (v : list R) (i : nat) (l : list nat) :
  Permutation (insert_index strict v i l) (i :: l).
Proof.
  induction l as [|j t IH]; simpl; [reflexivity|].
  destruct (goes_before strict (key v i) (key v j)); [reflexivity|].
  rewrite IH. apply perm_swap.
Qed.

Lemma insert_index_sorted (strict : bool) (v : list R) (i : nat) (l : list nat) :
  StronglySorted (key_le v) l ->
  StronglySorted (key_le v) (insert_index strict v i l).
Proof.
  induction 1 as [|j t Ht IH Hj]; simpl; [repeat constructor|].
  destruct (goes_before strict (key v i) (key v j)) eqn:E.
  - apply goes_before_le in E. constructor; [now constructor|].
    constructor; [exact E|].
    eapply Forall_impl; [|exact Hj]. unfold key_le. intros k Hk. lra.
  - apply goes_before_not in E. constructor; [exact IH|].
    rewrite insert_index_perm. now constructor.
Qed.

Lemma fold_insert_perm (strict : bool) (v : list R) (l : list nat) :
  forall acc,
    Permutation (fold_left (fun acc i => insert_index strict v i acc) l acc)
                (acc ++ l).
Proof.
  induction l as [|i l IH]; intros acc; simpl.
  - now rewrite app_nil_r.
  - rewrite IH, insert_index_perm. apply Permutation_middle.
Qed.

Lemma fold_insert_sorted (strict : bool) (v : list R) (l : list nat) :
  forall acc,
    StronglySorted (key_le v) acc ->
    StronglySorted (key_le v)
      (fold_left (fun acc i => insert_index strict v i acc) l acc).
Proof.
  induction l as [|i l IH]; intros acc H; simpl; [exact H|].
  apply IH. now apply insert_index_sorted.
Qed.

(** Both insertion sorts are sorting functions in numpy's sense. *)
Lemma insertion_argsort_spec (strict : bool) :
  argsort_spec (insertion_argsort strict).
Proof.
  intros v. unfold insertion_argsort. split.
  - now rewrite fold_insert_perm.
  - apply fold_insert_sorted. constructor.
Qed.

End ArgsortFacts.

(* ================================================================== *)
(** ** Properties of the similarity ranker *)
(* ================================================================== *)

Module RankerFacts.

Import Py Linalg LinalgFacts Ranker.
Local Open Scope R_scope.

(** The pair line 92 builds for corpus index [i]. *)
Definition entry (filenames_db : list string) (sims : list R) (i : nat)
  : string * R :=
  (nth i filenames_db EmptyString, nth i sims 0).

(** The scores of line 90 on a well-shaped matrix. *)
Definition scores (eps : R) (qf : vec) (features_db : matrix) : list R :=
  map (fun y => dot (normalize_row eps qf) (normalize_row eps y)) features_db.

Lemma index_ok {A : Type} (l : list A) (i : nat) (d : A) :
  (i < List.length l)%nat -> index l i = Returned (nth i l d).
Proof.
  intros H. unfold index.
  destruct (nth_error l i) eqn:E.
  - now rewrite (nth_error_nth _ _ d E).
  - apply nth_error_None in E. lia.
Qed.

Lemma omap_result_entry (F : list string) (sims : list R) (idx : list nat) :
  Forall (fun i => (i < List.length F)%nat /\ (i < List.length sims)%nat) idx ->
  omap (result_entry F sims) idx = Returned (map (entry F sims) idx).
Proof.
  induction 1 as [|i idx [HF Hs] _ IH]; simpl; [reflexivity|].
  unfold result_entry at 1.
  rewrite (index_ok F EmptyString HF), (index_ok sims 0 Hs). simpl.
  now rewrite IH.
Qed.

Lemma in_firstn {A : Type} (k : nat) (l : list A) (x : A) :
  In x (firstn k l) -> In x l.
Proof.
  intros H. rewrite <- (firstn_skipn k l). apply in_or_app. now left.
Qed.



Lemma key_map_opp (sims : list R) (i : nat) :
  key (map Ropp sims) i = - key sims i.
Proof.
  unfold key. rewrite <- (map_nth Ropp sims 0 i).
  f_equal. lra.
Qed.

Section Facts.

Variable eps : R.
Variable extract_features : string -> outcome vec.
Variable argsort : list R -> list nat.

Lemma query_embedding_ok (q : string) (qf : vec) :
  extract_features q = Returned qf ->
  (1 <= List.length qf)%nat ->
  query_embedding eps extract_features q = Returned (normalize_row eps qf).
Proof.
  intros He Hd. unfold query_embedding, normalize. rewrite He. simpl.
  rewrite (@check_array_ok (List.length qf) [qf]); [reflexivity|].
  repeat split; [discriminate | exact Hd | now constructor].
Qed.

Lemma similarities_ok (qf : vec) (X : matrix) :
  well_shaped (List.length qf) X ->
  similarities eps qf X = Returned (scores eps qf X).
Proof.
  intros HX. unfold similarities, cosine_similarity.
  assert (Hq : well_shaped (List.length qf) [qf]).
  { destruct HX as (_ & HD & _).
    repeat split; [discriminate | exact HD | now constructor]. }
  rewrite (check_array_ok Hq), (check_array_ok HX). simpl.
  rewrite (well_shaped_ncols HX), Nat.eqb_refl. reflexivity.
Qed.

Hypothesis argsort_ok : argsort_spec argsort.

Lemma top_indices_in_range (sims : list R) (top_n : Z) :
  Forall (fun i => (i < List.length sims)%nat) (top_indices argsort sims top_n).
Proof.
  apply Forall_forall. intros i Hi.
  destruct (argsort_ok (map Ropp sims)) as [Hp _].
  assert (Hin : In i (argsort (map Ropp sims))).
  { unfold top_indices, slice_to in Hi.
    destruct (0 <=? top_n)%Z; eapply in_firstn; exact Hi. }
  apply (Permutation_in _ Hp), in_seq in Hin.
  rewrite length_map in Hin. lia.
Qed.

Lemma top_indices_length (sims : list R) (top_n : Z) :
  (0 <= top_n)%Z ->
  List.length (top_indices argsort sims top_n)
  = Nat.min (Z.to_nat top_n) (List.length sims).
Proof.
  intros H. unfold top_indices, slice_to.
  destruct (Z.leb_spec 0 top_n); [|lia].
  rewrite length_firstn.
  destruct (argsort_ok (map Ropp sims)) as [Hp _].
  now rewrite (Permutation_length Hp), length_seq, length_map.
Qed.


End Facts.

End RankerFacts.

(* ================================================================== *)
(** ** The ranking: length and order *)
(* ================================================================== *)

Module RankerClaims.

Import Py Linalg LinalgFacts Ranker ArgsortFacts RankerFacts.
Local Open Scope R_scope.

Lemma index_returned {A : Type} (l : list A) (i : nat) (a d : A) :
  index l i = Returned a -> nth i l d = a.
Proof.
  unfold index. destruct (nth_error l i) eqn:E; [|discriminate].
  intros [= <-]. now apply nth_error_nth.
Qed.

Lemma omap_result_entry_returned (F : list string) (sims : list R)
  (idx : list nat) :
  forall res, omap (result_entry F sims) idx = Returned res ->
              res = map (entry F sims) idx.
Proof.
  induction idx as [|i idx IH]; simpl; intros res H.
  - now injection H as <-.
  - unfold result_entry at 1 in H.
    destruct (index F i) as [f|] eqn:Ef; [|discriminate].
    destruct (index sims i) as [s|] eqn:Es; [|discriminate]. simpl in H.
    destruct (omap (result_entry F sims) idx) as [r|] eqn:Er; [|discriminate].
    injection H as <-. rewrite (IH r eq_refl). unfold entry at 2.
    now rewrite (index_returned _ _ EmptyString Ef), (index_returned _ _ 0 Es).
Qed.

(** What a returning call of [find_similar_images] returns. *)
Lemma find_similar_images_returned (eps : R)
  (extract_features : string -> outcome vec) (argsort : list R -> list nat)
  (q : string) (X : matrix) (F : list string) (top_n : Z)
  (res : list (string * R)) :
  find_similar_images eps extract_features argsort q X F top_n = Returned res ->
  exists qf sims,
    query_embedding eps extract_features q = Returned qf
    /\ similarities eps qf X = Returned sims
    /\ res = map (entry F sims) (top_indices argsort sims top_n).
Proof.
  unfold find_similar_images. intros H.
  destruct (query_embedding eps extract_features q) as [qf|] eqn:Eq;
    simpl in H; [|discriminate].
  destruct (similarities eps qf X) as [sims|] eqn:Es;
    simpl in H; [|discriminate].
  exists qf, sims. split; [reflexivity|]. split; [exact Es|].
  now apply omap_result_entry_returned.
Qed.

(** On a well-shaped corpus the call returns. *)
Lemma find_similar_images_ok (eps : R)
  (extract_features : string -> outcome vec) (argsort : list R -> list nat)
  (q : string) (qf : vec) (X : matrix) (F : list string) (top_n : Z) :
  argsort_spec argsort ->
  extract_features q = Returned qf ->
  well_shaped (List.length qf) X ->
  (List.length X <= List.length F)%nat ->
  let sims := scores eps (normalize_row eps qf) X in
  query_embedding eps extract_features q = Returned (normalize_row eps qf)
  /\ similarities eps (normalize_row eps qf) X = Returned sims
  /\ find_similar_images eps extract_features argsort q X F top_n
     = Returned (map (entry F sims) (top_indices argsort sims top_n)).
Proof.
  intros Ha He HX HF sims.
  assert (HD : (1 <= List.length qf)%nat) by apply HX.
  pose proof (query_embedding_ok eps extract_features q He HD) as Hq.
  assert (Hs : similarities eps (normalize_row eps qf) X = Returned sims).
  { apply similarities_ok. now rewrite normalize_row_length. }
  repeat split; [exact Hq | exact Hs|].
  unfold find_similar_images. rewrite Hq. simpl. rewrite Hs. simpl.
  apply omap_result_entry.
  eapply Forall_impl; [|apply (top_indices_in_range Ha)].
  simpl. intros i Hi. split; [|exact Hi].
  unfold sims, scores in Hi. rewrite length_map in Hi. lia.
Qed.

(** *** A corpus of eighteen identical embeddings *)

Definition twins : matrix := repeat [1; 0] 18.

Definition twin_names : list string :=
  ["images/01.png"; "images/02.png"; "images/03.png"; "images/04.png";
   "images/05.png"; "images/06.png"; "images/07.png"; "images/08.png";
   "images/09.png"; "images/10.png"; "images/11.png"; "images/12.png";
   "images/13.png"; "images/14.png"; "images/15.png"; "images/16.png";
   "images/17.png"; "images/18.png"]%string.

Lemma twins_well_shaped : well_shaped 2 twins.
Proof.
  repeat split; [discriminate | lia|]. apply Forall_forall.
  intros r Hr. apply repeat_spec in Hr. now subst.
Qed.

(** *** C4 *)



End RankerClaims.

(* ================================================================== *)
(** ** Properties of the feature store *)
(* ================================================================== *)

Module FeatureStoreFacts.

Import Py PyStr Scanner Linalg LinalgFacts Npy NpyFacts Ranker Store.
Import FeatureStore.
Local Open Scope string_scope.
Local Open Scope list_scope.

Lemma with_events_nil (w : world) : with_events w [] = w.
Proof. destruct w. unfold with_events. simpl. now rewrite app_nil_r. Qed.

Lemma with_events_app (w : world) (e1 e2 : list ui_event) :
  with_events (with_events w e1) e2 = with_events w (e1 ++ e2).
Proof. unfold with_events. simpl. now rewrite app_assoc. Qed.

Lemma omap_length {A B : Type} (f : A -> outcome B) (l : list A) :
  forall ys, omap f l = Returned ys -> List.length ys = List.length l.
Proof.
  induction l as [|x l IH]; simpl; intros ys H.
  - now injection H as <-.
  - destruct (f x) as [y|]; simpl in H; [|discriminate].
    destruct (omap f l) as [r|]; simpl in H; [|discriminate].
    injection H as <-. simpl. now rewrite (IH r eq_refl).
Qed.

Lemma omap_nth {A B : Type} (f : A -> outcome B) (l : list A) (d : A) (d' : B) :
  forall ys i, omap f l = Returned ys -> (i < List.length l)%nat ->
               f (nth i l d) = Returned (nth i ys d').
Proof.
  induction l as [|x l IH]; simpl; intros ys i H Hi; [lia|].
  destruct (f x) as [y|] eqn:Ex; simpl in H; [|discriminate].
  destruct (omap f l) as [r|]; simpl in H; [|discriminate].
  injection H as <-. destruct i as [|i]; simpl; [exact Ex|].
  apply IH; [reflexivity | lia].
Qed.

Lemma normalize_returned (eps : R) (vs X : matrix) :
  normalize eps vs = Returned X ->
  X = map (normalize_row eps) vs /\ well_shaped (ncols vs) vs.
Proof.
  unfold normalize. destruct (check_array vs) as [vs'|] eqn:E; simpl;
    [|discriminate].
  intros [= <-]. destruct (check_array_returned _ E) as [-> H]. now split.
Qed.

Lemma normalize_ok (eps : R) (D : nat) (vs : matrix) :
  well_shaped D vs -> normalize eps vs = Returned (map (normalize_row eps) vs).
Proof. intros H. unfold normalize. now rewrite (check_array_ok H). Qed.

Section Facts.

Variable eps : R.
Variable extract_features : string -> outcome vec.

(** The loop returns what the comprehension over the file names returns;
    on the way it only adds events to the page. *)
Lemma extract_loop_spec (desc : string) (n : nat) (fns : list string) :
  forall i w, exists evs,
    extract_loop extract_features desc i n fns w
    = (omap extract_features fns, with_events w evs).
Proof.
  induction fns as [|fn rest IH]; intros i w; simpl.
  - exists []. unfold ret. now rewrite with_events_nil.
  - unfold bind at 1. unfold emit at 1. unfold bind at 1. unfold lift at 1.
    set (w1 := mkWorld _ _ _ _ _).
    destruct (extract_features fn) as [v|e]; simpl.
    + unfold bind at 1. destruct (IH (i + 1)%nat w1) as (evs & ->).
      eexists (_ :: evs).
      destruct (omap extract_features rest); simpl; unfold ret;
        (f_equal; unfold w1, with_events; simpl; now rewrite <- app_assoc).
    + eexists [_]. reflexivity.
Qed.

(** The message of line 65. *)
Definition no_images_message (image_dir : string) : string :=
  "No image files found in " ++ image_dir ++ " or its subfolders.".

(** An empty scan: the build reports it and returns the empty pair. *)
Lemma build_empty (image_dir : string) (w : world) :
  scanned w image_dir = [] ->
  compute_and_cache_features eps extract_features image_dir w
  = (Returned ([], []), with_events w [EvError (no_images_message image_dir)]).
Proof.
  intros H. unfold compute_and_cache_features, bind, scan. rewrite H.
  reflexivity.
Qed.

(** A non-empty scan: the build returns the scanned names and the
    normalized embeddings and writes both artifacts, or raises what the
    extraction or [normalize] raises and writes nothing. *)
Lemma build_nonempty (image_dir : string) (w : world) :
  scanned w image_dir <> [] ->
  exists evs,
    compute_and_cache_features eps extract_features image_dir w
    = match obind (omap extract_features (scanned w image_dir)) (normalize eps) with
      | Returned X =>
          (Returned (scanned w image_dir, X),
           with_caches (with_events w evs) X (scanned w image_dir))
      | Raised e => (Raised e, with_events w evs)
      end.
Proof.
  intros Hne. unfold compute_and_cache_features. unfold bind at 1.
  unfold scan at 1. set (fs := scanned w image_dir) in *.
  destruct fs as [|f fs'] eqn:Efs; [contradiction|].
  rewrite <- Efs. replace (Nat.eqb (List.length fs) 0) with false
    by (subst fs; rewrite Efs; reflexivity).
  unfold bind at 1. unfold emit at 1. unfold bind at 1.
  set (w1 := mkWorld _ _ _ _ _).
  destruct (extract_loop_spec "Extracting folder features"
              (List.length fs) fs 0 w1) as (evs & ->).
  destruct (omap extract_features fs) as [vs|e]; simpl.
  - unfold bind at 1. unfold emit at 1. unfold bind at 1. unfold lift at 1.
    destruct (normalize eps vs) as [X|e]; simpl.
    + eexists (EvProgressNew :: evs ++ [EvProgressEmpty]).
      unfold bind, save_features, save_filenames, ret, with_caches,
        with_events, w1. simpl. now rewrite <- !app_assoc.
    + eexists (EvProgressNew :: evs ++ [EvProgressEmpty]).
      unfold with_events, w1. simpl. now rewrite <- !app_assoc.
  - eexists (EvProgressNew :: evs).
    unfold with_events, w1. simpl. now rewrite <- !app_assoc.
Qed.

(** What a returning build of a non-empty corpus returned and wrote. *)
Lemma build_returned (image_dir : string) (w w' : world)
  (fs : list string) (X : matrix) :
  compute_and_cache_features eps extract_features image_dir w
  = (Returned (fs, X), w') ->
  fs <> [] ->
  exists vs evs,
    fs = scanned w image_dir
    /\ omap extract_features fs = Returned vs
    /\ well_shaped (ncols vs) vs
    /\ X = map (normalize_row eps) vs
    /\ w' = with_caches (with_events w evs) X fs.
Proof.
  intros H Hne.
  destruct (scanned w image_dir) as [|f0 fs0] eqn:Es.
  - rewrite (@build_empty image_dir w Es) in H. injection H as <- _ _.
    contradiction.
  - assert (Hs : scanned w image_dir <> []) by (rewrite Es; discriminate).
    destruct (@build_nonempty image_dir w Hs) as (evs & Hb).
    rewrite Hb in H. rewrite Es in *.
    destruct (omap extract_features (f0 :: fs0)) as [vs|e] eqn:Eo; simpl in H;
      [|discriminate].
    destruct (normalize eps vs) as [X'|e] eqn:En; [|discriminate].
    injection H as <- <- <-.
    destruct (normalize_returned eps vs En) as [-> Hw].
    exists vs, evs. repeat split; try assumption; apply Hw.
Qed.

(** A cache hit returns what the two artifacts hold. *)
Lemma load_hit (image_dir : string) (w : world) (feat_file : npy_floats)
  (name_file : npy_strings) (X : matrix) :
  w_feat_cache w = Some feat_file -> w_name_cache w = Some name_file ->
  np_load_matrix feat_file = Returned X ->
  load_image_features eps extract_features image_dir w
  = (Returned (np_load_strings name_file, X), w).
Proof.
  intros HX Hf Hl. unfold load_image_features. rewrite HX, Hf.
  unfold bind, ret, lift. now rewrite Hl.
Qed.

(** After the two saves of a build, a load returns what was saved. *)
Lemma load_after_save (image_dir : string) (w : world) (X : matrix)
  (fs : list string) :
  Forall (fun r => List.length r = ncols X) X ->
  Forall no_trailing_nul fs ->
  load_image_features eps extract_features image_dir (with_caches w X fs)
  = (Returned (fs, X), with_caches w X fs).
Proof.
  intros HX Hfs.
  rewrite (@load_hit image_dir (with_caches w X fs) (np_save_matrix X)
             (np_save_strings fs) X eq_refl eq_refl (np_load_save_matrix HX)).
  now rewrite (np_load_save_names Hfs).
Qed.

Lemma scanned_no_trailing_nul (image_dir : string) (w : world) :
  Forall no_trailing_nul (scanned w image_dir).
Proof.
  unfold scanned. destruct (w_dirs w image_dir) as [d|]; [|constructor].
  apply scan_no_trailing_nul.
Qed.

End Facts.

End FeatureStoreFacts.

(* ================================================================== *)
(** ** Example worlds *)
(* ================================================================== *)

Module Worlds.

Import Py PyStr Scanner Linalg Npy Ranker Store.
Local Open Scope string_scope.
Local Open Scope list_scope.

(** A disk whose only directory is [images/], no cache, nothing under
    [temp/], an empty page. *)
Definition fresh_world (d : dir) : world :=
  mkWorld (fun p => if String.eqb p IMAGE_DIR then Some d else None)
          None None [] [].

(** [images/] holds no image. *)
Definition w_no_images : world :=
  fresh_world (Dir ["notes.txt"; "jpg"] [("raw", Dir ["a.gif"] [])]).

(** [images/] holds one image. *)
Definition w_one_image : world := fresh_world (Dir ["a.png"] []).

(** Five cached names beside four cached rows. *)
Definition five_names : list string :=
  ["images/a.png"; "images/b.png"; "images/c.png"; "images/d.png";
   "images/e.png"].

Definition four_rows : matrix := [[1; 0]; [0; 1]; [1; 1]; [1; 0]]%R.

Definition w_mismatched_cache : world :=
  mkWorld (fun _ => None) (Some (np_save_matrix four_rows))
          (Some (np_save_strings five_names)) [] [].

Lemma scanned_no_images : scanned w_no_images IMAGE_DIR = [].
Proof. reflexivity. Qed.

Lemma scanned_one_image : scanned w_one_image IMAGE_DIR = ["images/a.png"].
Proof. reflexivity. Qed.

End Worlds.

(* ================================================================== *)
(** ** The feature store: empty corpus, cache hit, round trip *)
(* ================================================================== *)

Module StoreClaims.

Import Py PyStr Scanner Linalg LinalgFacts Npy NpyFacts Ranker ArgsortFacts.
Import RankerFacts RankerClaims Store FeatureStore FeatureStoreFacts Script.
Import Worlds.
Local Open Scope string_scope.
Local Open Scope list_scope.

(** *** C2 *)

(** C2, as the code has it: when no file under the root directory matches
    the allow-list, [compute_and_cache_features] raises nothing: it puts
    the message of line 65 on the page with [st.error], returns the empty
    pair and leaves both cache artifacts as they were; and when there was
    no complete cache, the script then ends at [st.stop()] (line 116)
    before any search. *)
Theorem C2_empty_corpus_reported_and_returned (eps : R)
  (extract_features : string -> outcome vec) (image_dir : string) (w : world) :
  scanned w image_dir = [] ->
  let w' := with_events w [EvError (no_images_message image_dir)] in
  compute_and_cache_features eps extract_features image_dir w
  = (Returned ([], []), w')
  /\ w_feat_cache w' = w_feat_cache w
  /\ w_name_cache w' = w_name_cache w
  /\ (image_dir = IMAGE_DIR ->
      w_feat_cache w = None \/ w_name_cache w = None ->
      forall argsort opens choice uploaded,
        script eps extract_features argsort opens choice uploaded w
        = (Raised (Exn "StopException"), w')).
Proof.
  intros Hs w'. pose proof (@build_empty eps extract_features image_dir w Hs) as Hb.
  split; [exact Hb|]. split; [reflexivity|]. split; [reflexivity|].
  intros -> Hmiss argsort opens choice uploaded.
  unfold script. unfold bind at 1.
  assert (Hl : load_image_features eps extract_features IMAGE_DIR w
               = (Returned ([], []), w')).
  { unfold load_image_features.
    destruct Hmiss as [-> | ->]; [exact Hb|].
    destruct (w_feat_cache w); exact Hb. }
  rewrite Hl. reflexivity.
Qed.

Lemma C2_empty_corpus_reported_and_returned_witness :
  compute_and_cache_features eps_float32 embed_unit_x IMAGE_DIR w_no_images
  = (Returned ([], []),
     with_events w_no_images [EvError (no_images_message IMAGE_DIR)]).
Proof.
  apply (@C2_empty_corpus_reported_and_returned eps_float32 embed_unit_x
           IMAGE_DIR w_no_images).
  reflexivity.
Defined.

(** Counterexample to C2 as stated: on a directory without any image the
    build returns the empty pair; it does not raise [EmptyCorpusError]. *)
Lemma C2_counterexample_empty_corpus_returns :
  scanned w_no_images IMAGE_DIR = []
  /\ fst (compute_and_cache_features eps_float32 embed_unit_x IMAGE_DIR
            w_no_images) = Returned ([], [])
  /\ fst (compute_and_cache_features eps_float32 embed_unit_x IMAGE_DIR
            w_no_images) <> Raised EmptyCorpusError.
Proof.
  rewrite (@build_empty eps_float32 embed_unit_x IMAGE_DIR w_no_images
             scanned_no_images).
  simpl. repeat split. discriminate.
Qed.

(** *** C3 *)

(** C3, as the code has it: on a cache hit (both artifacts exist)
    [load_image_features] reads the file names, reads the feature matrix,
    and returns the two as read, changing nothing; it compares no
    lengths. *)
Theorem C3_cache_hit_returns_artifacts_unchecked (eps : R)
  (extract_features : string -> outcome vec) (image_dir : string) (w : world)
  (feat_file : npy_floats) (name_file : npy_strings) (X : matrix) :
  w_feat_cache w = Some feat_file ->
  w_name_cache w = Some name_file ->
  np_load_matrix feat_file = Returned X ->
  load_image_features eps extract_features image_dir w
  = (Returned (np_load_strings name_file, X), w).
Proof.
  intros Hf Hn HX.
  exact (@load_hit eps extract_features image_dir w feat_file name_file X
           Hf Hn HX).
Qed.

Lemma C3_cache_hit_returns_artifacts_unchecked_witness :
  load_image_features eps_float32 embed_unit_x IMAGE_DIR w_mismatched_cache
  = (Returned (five_names, four_rows), w_mismatched_cache).
Proof.
  apply (@C3_cache_hit_returns_artifacts_unchecked eps_float32 embed_unit_x
           IMAGE_DIR w_mismatched_cache (np_save_matrix four_rows)
           (np_save_strings five_names) four_rows);
    reflexivity.
Defined.

(** Counterexample to C3 as stated: five names cached beside four rows
    are loaded without [CacheCorruptError], and the search over the
    mismatched pair returns four results. *)
Lemma C3_counterexample_mismatched_cache_loaded :
  List.length five_names = 5%nat
  /\ List.length four_rows = 4%nat
  /\ fst (load_image_features eps_float32 embed_unit_x IMAGE_DIR
            w_mismatched_cache) = Returned (five_names, four_rows)
  /\ fst (load_image_features eps_float32 embed_unit_x IMAGE_DIR
            w_mismatched_cache) <> Raised CacheCorruptError
  /\ exists res,
       find_similar_images eps_float32 embed_unit_x (insertion_argsort true)
         "images/a.png" four_rows five_names TOP_N = Returned res
       /\ List.length res = 4%nat.
Proof.
  assert (Hl : load_image_features eps_float32 embed_unit_x IMAGE_DIR
                 w_mismatched_cache
               = (Returned (five_names, four_rows), w_mismatched_cache)).
  { apply (@load_hit eps_float32 embed_unit_x IMAGE_DIR w_mismatched_cache
             (np_save_matrix four_rows) (np_save_strings five_names) four_rows);
      reflexivity. }
  split; [reflexivity|]. split; [reflexivity|]. rewrite Hl.
  split; [reflexivity|]. split; [discriminate|].
  destruct (@find_similar_images_ok eps_float32 embed_unit_x
              (insertion_argsort true) "images/a.png" [1; 0]%R four_rows
              five_names TOP_N) as (_ & _ & H).
  - apply insertion_argsort_spec.
  - reflexivity.
  - repeat split; [discriminate | simpl; lia | repeat constructor].
  - simpl. lia.
  - eexists. split; [exact H|].
    rewrite length_map,
      (top_indices_length (insertion_argsort_spec true)) by (unfold TOP_N; lia).
    unfold scores. rewrite length_map. reflexivity.
Qed.

(** *** C8 *)

(** C8: for every pair of file names (strings without NUL at their end,
    as every path is) and feature matrix (a 2-D array: rows of one
    length), writing the two cache artifacts as lines 71-72 do and loading
    them as lines 77-80 do returns the same file names and the same
    matrix, value for value. *)
Theorem C8_save_then_load_round_trip (eps : R)
  (extract_features : string -> outcome vec) (image_dir : string) (w : world)
  (fs : list string) (X : matrix) :
  Forall (fun r => List.length r = ncols X) X ->
  Forall no_trailing_nul fs ->
  np_load_strings (np_save_strings fs) = fs
  /\ np_load_matrix (np_save_matrix X) = Returned X
  /\ bind (save_features X)
       (fun _ => bind (save_filenames fs)
          (fun _ => load_image_features eps extract_features image_dir)) w
     = (Returned (fs, X), with_caches w X fs).
Proof.
  intros HX Hfs.
  split; [now apply np_load_save_names|].
  split; [now apply np_load_save_matrix|].
  unfold bind at 1. unfold save_features at 1. unfold bind at 1.
  unfold save_filenames at 1. cbn [w_dirs w_feat_cache w_name_cache w_temp w_page].
  fold (with_caches w X fs). now apply load_after_save.
Qed.

Lemma C8_save_then_load_round_trip_witness :
  np_load_strings (np_save_strings five_names) = five_names
  /\ np_load_matrix (np_save_matrix four_rows) = Returned four_rows
  /\ bind (save_features four_rows)
       (fun _ => bind (save_filenames five_names)
          (fun _ => load_image_features eps_float32 embed_unit_x IMAGE_DIR))
       w_no_images
     = (Returned (five_names, four_rows),
        with_caches w_no_images four_rows five_names).
Proof.
  apply (@C8_save_then_load_round_trip eps_float32 embed_unit_x IMAGE_DIR
           w_no_images five_names four_rows).
  - repeat constructor.
  - repeat constructor.
Defined.

(** On a non-empty scan whose images all embed, with one dimension [D >= 1],
    the build returns. *)
Lemma build_ok (eps : R) (extract_features : string -> outcome vec)
  (image_dir : string) (w : world) (vs : matrix) (D : nat) :
  scanned w image_dir <> [] ->
  omap extract_features (scanned w image_dir) = Returned vs ->
  well_shaped D vs ->
  exists evs,
    compute_and_cache_features eps extract_features image_dir w
    = (Returned (scanned w image_dir, map (normalize_row eps) vs),
       with_caches (with_events w evs) (map (normalize_row eps) vs)
         (scanned w image_dir)).
Proof.
  intros Hne Ho Hw.
  destruct (@build_nonempty eps extract_features image_dir w Hne) as (evs & H).
  exists evs. rewrite H, Ho. simpl. now rewrite (normalize_ok eps Hw).
Qed.

Lemma query_embedding_returned (eps : R)
  (extract_features : string -> outcome vec) (q : string) (qf qn : vec) :
  extract_features q = Returned qf ->
  query_embedding eps extract_features q = Returned qn ->
  qn = normalize_row eps qf.
Proof.
  intros He. unfold query_embedding. rewrite He. simpl.
  destruct (normalize eps [qf]) as [X|] eqn:En; simpl; [|discriminate].
  destruct (normalize_returned eps [qf] En) as [-> _]. simpl.
  now intros [= <-].
Qed.

(** *** C7 *)

(** C7: after a build of a non-empty corpus that returns, the file names
    and the feature matrix have the same length, row [i] of the matrix is
    the normalized embedding of [filenames[i]], and a load from the world
    the build leaves behind returns the same pair. *)
Theorem C7_build_rows_aligned_with_filenames (eps : R)
  (extract_features : string -> outcome vec) (image_dir : string)
  (w w' : world) (fs : list string) (X : matrix) :
  compute_and_cache_features eps extract_features image_dir w
  = (Returned (fs, X), w') ->
  fs <> [] ->
  List.length X = List.length fs
  /\ (forall i, (i < List.length fs)%nat ->
        exists v, extract_features (nth i fs EmptyString) = Returned v
                  /\ nth i X [] = normalize_row eps v)
  /\ load_image_features eps extract_features image_dir w'
     = (Returned (fs, X), w').
Proof.
  intros H Hne.
  destruct (build_returned _ _ _ _ H Hne)
    as (vs & evs & Hfs & Ho & Hw & -> & ->).
  pose proof (omap_length _ _ Ho) as Hl.
  split; [now rewrite length_map|]. split.
  - intros i Hi. exists (nth i vs []). split.
    + now apply omap_nth.
    + rewrite <- (map_nth (normalize_row eps) vs [] i).
      apply nth_indep. rewrite length_map. lia.
  - apply load_after_save.
    + apply normalized_rows_length, Hw.
    + rewrite Hfs. apply scanned_no_trailing_nul.
Qed.

Lemma C7_build_rows_aligned_with_filenames_witness :
  exists X w',
    compute_and_cache_features eps_float32 embed_unit_x IMAGE_DIR w_one_image
    = (Returned (["images/a.png"], X), w')
    /\ List.length X = 1%nat
    /\ (exists v, embed_unit_x "images/a.png" = Returned v
                  /\ nth 0 X [] = normalize_row eps_float32 v)
    /\ load_image_features eps_float32 embed_unit_x IMAGE_DIR w'
       = (Returned (["images/a.png"], X), w').
Proof.
  destruct (@build_ok eps_float32 embed_unit_x IMAGE_DIR w_one_image
              [[1; 0]%R] 2) as (evs & H).
  - rewrite scanned_one_image. discriminate.
  - reflexivity.
  - repeat split; [discriminate | lia | repeat constructor].
  - rewrite scanned_one_image in H.
    destruct (@C7_build_rows_aligned_with_filenames eps_float32 embed_unit_x
                IMAGE_DIR w_one_image _ _ _ H) as (Hl & Hrow & Hload).
    + discriminate.
    + do 2 eexists. split; [exact H|]. split; [exact Hl|].
      split; [apply (Hrow 0%nat); simpl; lia | exact Hload].
Defined.

End StoreClaims.

(* ================================================================== *)
(** ** The norm of the stored rows and the zero embedding *)
(* ================================================================== *)

Module NormClaims.

Import Py PyStr Scanner Linalg LinalgFacts Ranker ArgsortFacts RankerFacts.
Import RankerClaims Store FeatureStore FeatureStoreFacts Worlds StoreClaims.
Local Open Scope R_scope.




Lemma dot_nil_r (u : vec) : dot u [] = 0.
Proof. now destruct u. Qed.

Lemma scores_nth (eps : R) (qf : vec) (X : matrix) (j : nat) :
  nth j (scores eps qf X) 0
  = dot (normalize_row eps qf) (normalize_row eps (nth j X [])).
Proof.
  unfold scores.
  rewrite <- (map_nth (fun y => dot (normalize_row eps qf) (normalize_row eps y))
                X [] j).
  f_equal. unfold normalize_row at 2. simpl. now rewrite dot_nil_r.
Qed.

(** *** C6 *)


Lemma l2norm_unit_x : l2norm [1; 0] = 1.
Proof.
  unfold l2norm. simpl. replace (1 * 1 + (0 * 0 + 0)) with 1 by lra.
  apply sqrt_1.
Qed.




(** *** C10 *)

(** C10: the divisor [normalize] uses is never zero, and for a row of
    zeros it is 1, so the zero vector is normalized to the zero vector;
    a build in which images embed to the zero vector returns, with rows
    of zeros for them; and a search against a matrix holding rows of zeros
    returns, each such row scoring 0 against the query. *)
Theorem C10_zero_embedding_safe (eps : R)
  (extract_features : string -> outcome vec) (argsort : list R -> list nat) :
  0 < eps ->
  argsort_spec argsort ->
  (forall s, handle_zeros_in_scale eps s <> 0)
  /\ (forall n, handle_zeros_in_scale eps (l2norm (zeros n)) = 1
                /\ normalize_row eps (zeros n) = zeros n)
  /\ (forall image_dir w vs D,
        scanned w image_dir <> [] ->
        omap extract_features (scanned w image_dir) = Returned vs ->
        well_shaped D vs ->
        exists X w',
          compute_and_cache_features eps extract_features image_dir w
          = (Returned (scanned w image_dir, X), w')
          /\ forall i, (i < List.length vs)%nat -> nth i vs [] = zeros D ->
                       nth i X [] = zeros D)
  /\ (forall q qf X F top_n,
        extract_features q = Returned qf ->
        well_shaped (List.length qf) X ->
        (List.length X <= List.length F)%nat ->
        exists res sims,
          find_similar_images eps extract_features argsort q X F top_n
          = Returned res
          /\ similarities eps (normalize_row eps qf) X = Returned sims
          /\ res = map (entry F sims) (top_indices argsort sims top_n)
          /\ forall j, (j < List.length X)%nat ->
                       nth j X [] = zeros (List.length qf) ->
                       nth j sims 0 = 0).
Proof.
  intros Heps Ha. split; [|split; [|split]].
  - intros s. pose proof (handle_zeros_in_scale_pos Heps s). lra.
  - intros n. split.
    + apply handle_zeros_in_scale_small. rewrite l2norm_zeros. lra.
    + now apply normalize_row_zeros.
  - intros image_dir w vs D Hne Ho Hw.
    destruct (@build_ok eps extract_features image_dir w vs D Hne Ho Hw)
      as (evs & H).
    do 2 eexists. split; [exact H|].
    intros i Hi Hz.
    transitivity (normalize_row eps (nth i vs [])).
    + rewrite <- (map_nth (normalize_row eps) vs [] i).
      apply nth_indep. rewrite length_map. exact Hi.
    + rewrite Hz. now apply normalize_row_zeros.
  - intros q qf X F top_n He HX HF.
    destruct (@find_similar_images_ok eps extract_features argsort q qf X F
                top_n Ha He HX HF) as (_ & Hs & H).
    do 2 eexists. split; [exact H|]. split; [exact Hs|].
    split; [reflexivity|].
    intros j _ Hz. rewrite scores_nth, Hz.
    now apply cosine_zero_row.
Qed.

Lemma C10_zero_embedding_safe_witness :
  normalize_row eps_float32 (zeros 2) = zeros 2
  /\ (exists X w',
        compute_and_cache_features eps_float32 embed_zero IMAGE_DIR w_one_image
        = (Returned (scanned w_one_image IMAGE_DIR, X), w')
        /\ nth 0 X [] = zeros 2)
  /\ (exists res sims,
        find_similar_images eps_float32 embed_zero (insertion_argsort true)
          "q.png" [zeros 2; [1; 0]] ["a.png"; "b.png"]%string 5 = Returned res
        /\ List.length res = 2%nat
        /\ nth 0 sims 0 = 0).
Proof.
  destruct (@C10_zero_embedding_safe eps_float32 embed_zero
              (insertion_argsort true) eps_float32_pos
              (insertion_argsort_spec true)) as (_ & Hz & Hb & Hr).
  split; [apply Hz|]. split.
  - destruct (Hb IMAGE_DIR w_one_image [zeros 2] 2%nat) as (X & w' & H & Hrow).
    + rewrite scanned_one_image. discriminate.
    + reflexivity.
    + repeat split; [discriminate | lia | repeat constructor].
    + exists X, w'. split; [exact H|]. apply Hrow; [simpl; lia | reflexivity].
  - destruct (Hr "q.png"%string (zeros 2) [zeros 2; [1; 0]]
                ["a.png"; "b.png"]%string 5%Z)
      as (res & sims & H & Hs & -> & Hzero).
    + reflexivity.
    + repeat split; [discriminate | simpl; lia | repeat constructor].
    + simpl. lia.
    + eexists. exists sims. split; [exact H|]. split.
      * rewrite length_map,
          (top_indices_length (insertion_argsort_spec true)) by lia.
        rewrite (similarities_ok eps_float32) in Hs.
        -- injection Hs as <-. reflexivity.
        -- rewrite normalize_row_length.
           repeat split; [discriminate | simpl; lia | repeat constructor].
      * apply Hzero; [simpl; lia | reflexivity].
Defined.

End NormClaims.

(* ================================================================== *)
(** ** The temporary file of an uploaded query *)
(* ================================================================== *)

Module ScriptClaims.

Import Py PyStr Scanner Linalg LinalgFacts Npy NpyFacts Ranker ArgsortFacts.
Import RankerFacts Store FeatureStore FeatureStoreFacts Script.
Local Open Scope string_scope.
Local Open Scope list_scope.

(** The world once [query_img.save(path)] has run. *)
Definition saved (w : world) (path : string) : world :=
  mkWorld (w_dirs w) (w_feat_cache w) (w_name_cache w)
          (if existsb (String.eqb path) (w_temp w) then w_temp w
           else path :: w_temp w)
          (w_page w).

Lemma saved_in_temp (w : world) (path : string) : In path (w_temp (saved w path)).
Proof.
  unfold saved. simpl.
  destruct (existsb (String.eqb path) (w_temp w)) eqn:E; [|now left].
  apply existsb_exists in E as (p & Hin & Hp).
  apply String.eqb_eq in Hp. now subst.
Qed.

Section Facts.

Variable eps : R.
Variable extract_features : string -> outcome vec.
Variable argsort : list R -> list nat.
Variable opens : string -> bool.

Lemma show_results_ok (results : list (string * R)) (w : world) :
  Forall (fun r => opens (fst r) = true) results ->
  show_results opens results w = (Returned tt, w).
Proof.
  induction 1 as [|[p s] rest Hp _ IH]; simpl; [reflexivity|].
  unfold bind, image_open. simpl in Hp. rewrite Hp. exact IH.
Qed.

Lemma show_results_world (results : list (string * R)) (w : world) :
  snd (show_results opens results w) = w.
Proof.
  induction results as [|[p s] rest IH]; simpl; [reflexivity|].
  unfold bind, image_open. destruct (opens p); [exact IH | reflexivity].
Qed.

(** When the search of an uploaded query raises, the script ends with that
    exception and the temporary file is still there. *)
Lemma upload_search_raises (u : upload) (selected_path : string)
  (image_feats : matrix) (image_files : list string) (w : world) (e : exn) :
  up_decodes u = true ->
  find_similar_images eps extract_features argsort
    (join "temp" (up_name u)) image_feats image_files TOP_N = Raised e ->
  query_section eps extract_features argsort opens (Some u) selected_path
    image_feats image_files w
  = (Raised e, saved w (join "temp" (up_name u))).
Proof.
  intros Hd Hf. unfold query_section, bind, save_temp, ret, lift, raise.
  rewrite Hd. fold (saved w (join "temp" (up_name u))). now rewrite Hf.
Qed.

(** When showing a result of an uploaded query raises (a cached path that
    no longer opens), the temporary file is still there as well. *)
Lemma upload_display_raises (u : upload) (selected_path : string)
  (image_feats : matrix) (image_files : list string) (w : world)
  (res : list (string * R)) (e : exn) :
  up_decodes u = true ->
  find_similar_images eps extract_features argsort
    (join "temp" (up_name u)) image_feats image_files TOP_N = Returned res ->
  fst (show_results opens res (saved w (join "temp" (up_name u)))) = Raised e ->
  query_section eps extract_features argsort opens (Some u) selected_path
    image_feats image_files w
  = (Raised e, saved w (join "temp" (up_name u))).
Proof.
  intros Hd Hf Hs. unfold query_section, bind, save_temp, ret, lift, raise.
  rewrite Hd. fold (saved w (join "temp" (up_name u))). rewrite Hf.
  pose proof (show_results_world res (saved w (join "temp" (up_name u)))) as Hw.
  destruct (show_results opens res (saved w (join "temp" (up_name u))))
    as [o w1]. simpl in Hs, Hw. now subst.
Qed.

(** When nothing raises, the temporary file is gone at the end. *)
Lemma upload_search_returns (u : upload) (selected_path : string)
  (image_feats : matrix) (image_files : list string) (w : world)
  (res : list (string * R)) :
  up_decodes u = true ->
  find_similar_images eps extract_features argsort
    (join "temp" (up_name u)) image_feats image_files TOP_N = Returned res ->
  Forall (fun r => opens (fst r) = true) res ->
  exists w',
    query_section eps extract_features argsort opens (Some u) selected_path
      image_feats image_files w = (Returned tt, w')
    /\ ~ In (join "temp" (up_name u)) (w_temp w').
Proof.
  intros Hd Hf Ho. unfold query_section, bind, save_temp, ret, lift, raise.
  rewrite Hd. fold (saved w (join "temp" (up_name u))). rewrite Hf.
  rewrite (show_results_ok _ Ho). unfold os_remove.
  pose proof (saved_in_temp w (join "temp" (up_name u))) as Hin.
  replace (existsb (String.eqb (join "temp" (up_name u)))
             (w_temp (saved w (join "temp" (up_name u))))) with true.
  - eexists. split; [reflexivity|]. simpl. intros H.
    apply filter_In in H as [_ H]. now rewrite String.eqb_refl in H.
  - symmetry. apply existsb_exists. eexists. split; [exact Hin|].
    apply String.eqb_refl.
Qed.

End Facts.

(** *** C9 *)

(** A cache written for a model with three features, while the model at
    hand gives two. *)
Definition stale_feats : matrix := [[1; 0; 0]]%R.

Definition w_stale_cache : world :=
  mkWorld (fun _ => None) (Some (np_save_matrix stale_feats))
          (Some (np_save_strings ["images/a.png"])) [] [].

Definition cat_upload : upload := mkUpload "cat.png" true.

(** The world the failed run leaves behind. *)
Definition w_after_failure : world :=
  mkWorld (fun _ => None) (Some (np_save_matrix stale_feats))
          (Some (np_save_strings ["images/a.png"])) ["temp/cat.png"] [].

(** C9 fails on the code: with the stale cache above, the script saves the
    uploaded image as [temp/cat.png], [cosine_similarity] raises
    [ValueError] (three columns against two), the script ends there, and
    [temp/cat.png] is still on the disk: line 145 is never reached. *)
Theorem C9_temp_file_left_after_failed_search :
  script eps_float32 embed_unit_x (insertion_argsort true) (fun _ => true)
    "a.png" (Some cat_upload) w_stale_cache
  = (Raised ValueError, w_after_failure)
  /\ In "temp/cat.png" (w_temp w_after_failure).
Proof.
  split; [|now left].
  unfold script. unfold bind at 1.
  rewrite (@load_hit eps_float32 embed_unit_x IMAGE_DIR w_stale_cache
             (np_save_matrix stale_feats) (np_save_strings ["images/a.png"])
             stale_feats eq_refl eq_refl eq_refl).
  change (np_load_strings (np_save_strings ["images/a.png"]))
    with ["images/a.png"].
  cbn [fst snd List.length Nat.eqb map]. unfold bind at 1.
  change (lift (list_index "a.png" [basename "images/a.png"]) w_stale_cache)
    with (Returned 0%nat, w_stale_cache).
  cbn iota beta. unfold bind at 1.
  change (lift (index ["images/a.png"] 0) w_stale_cache)
    with (Returned "images/a.png", w_stale_cache).
  cbn iota beta.
  rewrite (@upload_search_raises eps_float32 embed_unit_x
             (insertion_argsort true) (fun _ => true) cat_upload
             "images/a.png" stale_feats ["images/a.png"] w_stale_cache
             ValueError); reflexivity.
Qed.

End ScriptClaims.

(* ================================================================== *)
(** ** More on the normalization *)
(* ================================================================== *)

Module LinalgMore.

Import Py Linalg LinalgFacts.
Local Open Scope R_scope.

Section Eps.

Variable eps : R.
Hypothesis eps_pos : 0 < eps.
Hypothesis eps_small : 10 * eps <= 1.

(** Normalizing twice is normalizing once. *)
Lemma normalize_row_twice (v : vec) :
  normalize_row eps (normalize_row eps v) = normalize_row eps v.
Proof.
  destruct (Rlt_dec (l2norm v) (10 * eps)) as [Hs|Hl].
  - rewrite (normalize_row_small v Hs). now apply normalize_row_small.
  - apply (normalize_row_idempotent eps_pos); lra.
Qed.

End Eps.

End LinalgMore.

(* ================================================================== *)
(** ** More on the ranker: selection, lengths, errors, score values *)
(* ================================================================== *)

Module RankerMore.

Import Py Linalg LinalgFacts LinalgMore Ranker ArgsortFacts RankerFacts.
Import RankerClaims.
Local Open Scope R_scope.

(** *** Shapes *)

Lemma check_array_singleton (r : vec) :
  check_array [r]
  = if Nat.eqb (List.length r) 0 then Raised ValueError else Returned [r].
Proof.
  unfold check_array, rectangular. simpl. rewrite Nat.eqb_refl. reflexivity.
Qed.

Lemma check_array_raises_ValueError (X : matrix) (e : exn) :
  check_array X = Raised e -> e = ValueError.
Proof.
  unfold check_array.
  destruct (negb (rectangular X)); [now intros [= <-]|].
  destruct (Nat.eqb (List.length X) 0); [now intros [= <-]|].
  destruct (Nat.eqb (ncols X) 0); [now intros [= <-] | discriminate].
Qed.

(** Line 90, spelled out. *)
Lemma similarities_eq (eps : R) (qf : vec) (X : matrix) :
  similarities eps qf X
  = if Nat.eqb (List.length qf) 0 then Raised ValueError
    else obind (check_array X)
           (fun Y => if negb (Nat.eqb (List.length qf) (ncols Y))
                     then Raised ValueError
                     else Returned (scores eps qf Y)).
Proof.
  unfold similarities, cosine_similarity. rewrite check_array_singleton.
  destruct (Nat.eqb (List.length qf) 0); [reflexivity|]. simpl.
  destruct (check_array X) as [Y|e]; [|reflexivity]. simpl.
  destruct (Nat.eqb (List.length qf) (ncols Y)); reflexivity.
Qed.

Lemma similarities_returned (eps : R) (qf : vec) (X : matrix) (sims : list R) :
  similarities eps qf X = Returned sims ->
  sims = scores eps qf X /\ well_shaped (List.length qf) X.
Proof.
  rewrite similarities_eq.
  destruct (Nat.eqb (List.length qf) 0); [discriminate|].
  destruct (check_array X) as [Y|e] eqn:Ec; [|discriminate]. simpl.
  destruct (check_array_returned _ Ec) as [-> Hw].
  destruct (Nat.eqb (List.length qf) (ncols X)) eqn:En; [|discriminate].
  simpl. intros [= <-]. apply Nat.eqb_eq in En. rewrite En. now split.
Qed.

Lemma similarities_raises_ValueError (eps : R) (qf : vec) (X : matrix) (e : exn) :
  similarities eps qf X = Raised e -> e = ValueError.
Proof.
  rewrite similarities_eq.
  destruct (Nat.eqb (List.length qf) 0); [now intros [= <-]|].
  destruct (check_array X) as [Y|e'] eqn:Ec; simpl.
  - destruct (negb (Nat.eqb (List.length qf) (ncols Y)));
      [now intros [= <-] | discriminate].
  - intros [= <-]. now apply check_array_raises_ValueError in Ec.
Qed.

Lemma scores_length (eps : R) (qf : vec) (X : matrix) :
  List.length (scores eps qf X) = List.length X.
Proof. unfold scores. apply length_map. Qed.

(** *** Lists *)

(** A prefix of a duplicate-free list. *)
Lemma prefix_NoDup (A : Type) (l : list A) :
  NoDup l -> forall k, NoDup (firstn k l).
Proof.
  intros H k. rewrite <- (firstn_skipn k l) in H.
  now apply NoDup_app_remove_r in H.
Qed.

Lemma StronglySorted_app_cross {A : Type} (R : A -> A -> Prop) (l1 l2 : list A) :
  StronglySorted R (l1 ++ l2) ->
  forall x y, In x l1 -> In y l2 -> R x y.
Proof.
  induction l1 as [|a l1 IH]; simpl; intros H x y Hx Hy; [contradiction|].
  inversion H as [|? ? Ht Ha]; subst. destruct Hx as [<-|Hx].
  - rewrite Forall_forall in Ha. apply Ha, in_or_app. now right.
  - now apply IH.
Qed.

(** The indices of line 91 are a prefix of [argsort]'s answer. *)
Lemma top_indices_prefix (argsort : list R -> list nat) (sims : list R)
  (top_n : Z) :
  exists k, top_indices argsort sims top_n
            = firstn k (argsort (map Ropp sims)).
Proof.
  unfold top_indices, slice_to. destruct (0 <=? top_n)%Z; eexists; reflexivity.
Qed.

Section Selection.

Variable argsort : list R -> list nat.
Hypothesis argsort_ok : argsort_spec argsort.

Lemma top_indices_NoDup (sims : list R) (top_n : Z) :
  NoDup (top_indices argsort sims top_n).
Proof.
  destruct (top_indices_prefix argsort sims top_n) as (k & ->).
  apply prefix_NoDup.
  destruct (argsort_ok (map Ropp sims)) as [Hp _].
  apply (Permutation_NoDup (Permutation_sym Hp)), seq_NoDup.
Qed.

(** What is left out scores no higher than what is taken. *)
Lemma top_indices_best (sims : list R) (top_n : Z) (i j : nat) :
  In i (top_indices argsort sims top_n) ->
  (j < List.length sims)%nat ->
  ~ In j (top_indices argsort sims top_n) ->
  key sims j <= key sims i.
Proof.
  destruct (top_indices_prefix argsort sims top_n) as (k & ->).
  intros Hi Hj Hnj.
  destruct (argsort_ok (map Ropp sims)) as [Hp Hs].
  set (L := argsort (map Ropp sims)) in *.
  assert (HjL : In j L).
  { apply (Permutation_in _ (Permutation_sym Hp)), in_seq.
    rewrite length_map. lia. }
  rewrite <- (firstn_skipn k L) in HjL, Hs.
  apply in_app_or in HjL as [HjL|HjL]; [contradiction|].
  pose proof (@StronglySorted_app_cross _ _ _ _ Hs i j Hi HjL) as H.
  unfold key_le in H. rewrite !key_map_opp in H. lra.
Qed.

(** The length of the selection for any [top_n], negative ones included. *)
Lemma top_indices_length_any (sims : list R) (top_n : Z) :
  List.length (top_indices argsort sims top_n)
  = if (0 <=? top_n)%Z then Nat.min (Z.to_nat top_n) (List.length sims)
    else (List.length sims - Z.to_nat (- top_n))%nat.
Proof.
  unfold top_indices, slice_to.
  destruct (argsort_ok (map Ropp sims)) as [Hp _].
  pose proof (Permutation_length Hp) as Hl.
  rewrite length_seq, length_map in Hl.
  destruct (0 <=? top_n)%Z; rewrite length_firstn, Hl; lia.
Qed.

End Selection.

End RankerMore.

Module RankerExtras.

Import Py Linalg LinalgFacts LinalgMore Ranker ArgsortFacts RankerFacts.
Import RankerClaims RankerMore Worlds.
Local Open Scope R_scope.

Lemma eps_float32_small : 10 * eps_float32 <= 1.
Proof. unfold eps_float32. lra. Qed.

Lemma twins_ranked (top_n : Z) :
  find_similar_images eps_float32 embed_unit_x (insertion_argsort true)
    "q.png" twins twin_names top_n
  = Returned
      (map (entry twin_names
              (scores eps_float32 (normalize_row eps_float32 [1; 0]) twins))
         (top_indices (insertion_argsort true)
            (scores eps_float32 (normalize_row eps_float32 [1; 0]) twins)
            top_n)).
Proof.
  apply (@find_similar_images_ok eps_float32 embed_unit_x
           (insertion_argsort true) "q.png" [1; 0] twins twin_names top_n).
  - apply insertion_argsort_spec.
  - reflexivity.
  - apply twins_well_shaped.
  - simpl. lia.
Qed.

(** A returned result is the best [top_n]: its entries are those of
    distinct rows of the matrix, and every row left out scores no higher
    than every row taken. *)
Theorem find_similar_images_takes_the_best (eps : R)
  (extract_features : string -> outcome vec) (argsort : list R -> list nat)
  (q : string) (X : matrix) (F : list string) (top_n : Z)
  (res : list (string * R)) :
  argsort_spec argsort ->
  find_similar_images eps extract_features argsort q X F top_n = Returned res ->
  exists qn sims idx,
    query_embedding eps extract_features q = Returned qn
    /\ similarities eps qn X = Returned sims
    /\ List.length sims = List.length X
    /\ res = map (entry F sims) idx
    /\ NoDup idx
    /\ Forall (fun i => (i < List.length X)%nat) idx
    /\ forall i j, In i idx -> (j < List.length X)%nat -> ~ In j idx ->
                   nth j sims 0 <= nth i sims 0.
Proof.
  intros Ha H.
  destruct (find_similar_images_returned _ _ _ _ _ _ _ H)
    as (qn & sims & Hq & Hs & ->).
  destruct (similarities_returned _ _ _ Hs) as [Hsc _].
  assert (Hl : List.length sims = List.length X)
    by (rewrite Hsc; apply scores_length).
  exists qn, sims, (top_indices argsort sims top_n).
  split; [exact Hq|]. split; [exact Hs|]. split; [exact Hl|].
  split; [reflexivity|]. split; [now apply top_indices_NoDup|].
  split.
  - rewrite <- Hl. now apply top_indices_in_range.
  - intros i j Hi Hj Hnj.
    apply (@top_indices_best argsort Ha sims top_n i j Hi); [lia | exact Hnj].
Qed.

Lemma find_similar_images_takes_the_best_witness :
  exists res qn sims idx,
    find_similar_images eps_float32 embed_unit_x (insertion_argsort true)
      "q.png" twins twin_names 5 = Returned res
    /\ query_embedding eps_float32 embed_unit_x "q.png" = Returned qn
    /\ similarities eps_float32 qn twins = Returned sims
    /\ res = map (entry twin_names sims) idx
    /\ NoDup idx.
Proof.
  destruct (@find_similar_images_takes_the_best eps_float32 embed_unit_x
              (insertion_argsort true) "q.png" twins twin_names 5 _
              (insertion_argsort_spec true) (twins_ranked 5))
    as (qn & sims & idx & Hq & Hs & _ & Hr & Hn & _).
  eexists. exists qn, sims, idx.
  split; [apply (twins_ranked 5)|]. split; [exact Hq|]. split; [exact Hs|].
  split; [exact Hr | exact Hn].
Defined.

(** The length of a returned result for every [top_n]: [min top_n n] for
    [top_n >= 0] (none for 0), and [n - |top_n|] (all but the last
    [|top_n|] of the ranking) for a negative [top_n], as the slice
    [[:top_n]] gives; so never more than [top_n] entries. *)
Theorem find_similar_images_length (eps : R)
  (extract_features : string -> outcome vec) (argsort : list R -> list nat)
  (q : string) (X : matrix) (F : list string) (top_n : Z)
  (res : list (string * R)) :
  argsort_spec argsort ->
  find_similar_images eps extract_features argsort q X F top_n = Returned res ->
  List.length res
  = (if (0 <=? top_n)%Z then Nat.min (Z.to_nat top_n) (List.length X)
     else (List.length X - Z.to_nat (- top_n))%nat)
  /\ ((0 <= top_n)%Z -> (Z.of_nat (List.length res) <= top_n)%Z).
Proof.
  intros Ha H.
  destruct (find_similar_images_returned _ _ _ _ _ _ _ H)
    as (qn & sims & Hq & Hs & ->).
  destruct (similarities_returned _ _ _ Hs) as [Hsc _].
  assert (Hl : List.length sims = List.length X)
    by (rewrite Hsc; apply scores_length).
  rewrite length_map, (@top_indices_length_any argsort Ha), Hl.
  split; [reflexivity|]. intros Hn.
  destruct (Z.leb_spec 0 top_n); lia.
Qed.

Lemma find_similar_images_length_witness :
  exists r0 r5 rneg,
    find_similar_images eps_float32 embed_unit_x (insertion_argsort true)
      "q.png" twins twin_names 0 = Returned r0
    /\ List.length r0 = 0%nat
    /\ find_similar_images eps_float32 embed_unit_x (insertion_argsort true)
         "q.png" twins twin_names 5 = Returned r5
    /\ List.length r5 = 5%nat
    /\ find_similar_images eps_float32 embed_unit_x (insertion_argsort true)
         "q.png" twins twin_names (-3) = Returned rneg
    /\ List.length rneg = 15%nat.
Proof.
  do 3 eexists.
  split; [apply (twins_ranked 0)|]. split.
  { apply (@find_similar_images_length eps_float32 embed_unit_x
             (insertion_argsort true) "q.png" twins twin_names 0 _
             (insertion_argsort_spec true) (twins_ranked 0)). }
  split; [apply (twins_ranked 5)|]. split.
  { apply (@find_similar_images_length eps_float32 embed_unit_x
             (insertion_argsort true) "q.png" twins twin_names 5 _
             (insertion_argsort_spec true) (twins_ranked 5)). }
  split; [apply (twins_ranked (-3))|].
  apply (@find_similar_images_length eps_float32 embed_unit_x
           (insertion_argsort true) "q.png" twins twin_names (-3) _
           (insertion_argsort_spec true) (twins_ranked (-3))).
Defined.

(** *** Errors *)

Lemma query_embedding_eq (eps : R) (extract_features : string -> outcome vec)
  (q : string) (qf : vec) :
  extract_features q = Returned qf ->
  query_embedding eps extract_features q
  = if Nat.eqb (List.length qf) 0 then Raised ValueError
    else Returned (normalize_row eps qf).
Proof.
  intros He. unfold query_embedding, normalize. rewrite He. simpl.
  rewrite check_array_singleton.
  destruct (Nat.eqb (List.length qf) 0); reflexivity.
Qed.

(** When the feature matrix does not fit the query embedding (no row, rows
    of another dimension than the query, rows of unequal length, or no
    column) [find_similar_images] raises [ValueError]. *)
Theorem find_similar_images_shape_error (eps : R)
  (extract_features : string -> outcome vec) (argsort : list R -> list nat)
  (q : string) (qf : vec) (X : matrix) (F : list string) (top_n : Z) :
  extract_features q = Returned qf ->
  ~ well_shaped (List.length qf) X ->
  find_similar_images eps extract_features argsort q X F top_n
  = Raised ValueError.
Proof.
  intros He Hbad. unfold find_similar_images.
  rewrite (query_embedding_eq eps extract_features q He).
  destruct (Nat.eqb (List.length qf) 0); [reflexivity|]. simpl.
  destruct (similarities eps (normalize_row eps qf) X) as [sims|e] eqn:Es.
  - destruct (similarities_returned _ _ _ Es) as [_ Hw].
    rewrite normalize_row_length in Hw. contradiction.
  - simpl. now rewrite (similarities_raises_ValueError _ _ _ Es).
Qed.

Lemma find_similar_images_shape_error_witness :
  find_similar_images eps_float32 embed_unit_x (insertion_argsort true)
    "q.png" [[1; 0; 0]] ["images/a.png"%string] 5 = Raised ValueError
  /\ find_similar_images eps_float32 embed_unit_x (insertion_argsort true)
       "q.png" [] [] 5 = Raised ValueError.
Proof.
  split.
  - apply (@find_similar_images_shape_error eps_float32 embed_unit_x
             (insertion_argsort true) "q.png" [1; 0] [[1; 0; 0]]
             ["images/a.png"%string] 5); [reflexivity|].
    intros (_ & _ & H). inversion H as [|? ? Hr _]. discriminate Hr.
  - apply (@find_similar_images_shape_error eps_float32 embed_unit_x
             (insertion_argsort true) "q.png" [1; 0] [] [] 5); [reflexivity|].
    intros (H & _). now apply H.
Defined.

Lemma omap_result_entry_index_error (F : list string) (sims : list R)
  (idx : list nat) :
  Forall (fun i => (i < List.length sims)%nat) idx ->
  Exists (fun i => (List.length F <= i)%nat) idx ->
  omap (result_entry F sims) idx = Raised IndexError.
Proof.
  induction 1 as [|i idx Hi _ IH]; intros Hex; [inversion Hex|].
  simpl. unfold result_entry at 1.
  destruct (le_lt_dec (List.length F) i) as [Hout|Hin].
  - unfold index at 1. apply nth_error_None in Hout. now rewrite Hout.
  - rewrite (index_ok F EmptyString Hin), (index_ok sims 0 Hi). simpl.
    rewrite IH; [reflexivity|].
    inversion Hex as [? ? Hh|? ? Ht]; subst; [lia | exact Ht].
Qed.

(** With fewer file names than feature rows, asking for at least as many
    results as there are rows raises [IndexError]: the ranking reaches a
    row that has no name. *)
Theorem find_similar_images_index_error (eps : R)
  (extract_features : string -> outcome vec) (argsort : list R -> list nat)
  (q : string) (qf : vec) (X : matrix) (F : list string) (top_n : Z) :
  argsort_spec argsort ->
  extract_features q = Returned qf ->
  well_shaped (List.length qf) X ->
  (List.length F < List.length X)%nat ->
  (Z.of_nat (List.length X) <= top_n)%Z ->
  find_similar_images eps extract_features argsort q X F top_n
  = Raised IndexError.
Proof.
  intros Ha He HX HF Hn.
  assert (HD : (1 <= List.length qf)%nat) by apply HX.
  unfold find_similar_images.
  rewrite (query_embedding_ok eps extract_features q He HD). simpl.
  rewrite similarities_ok by (now rewrite normalize_row_length). simpl.
  set (sims := scores eps (normalize_row eps qf) X).
  assert (Hl : List.length sims = List.length X) by apply scores_length.
  apply omap_result_entry_index_error.
  - now apply top_indices_in_range.
  - apply Exists_exists. exists (List.length F). split; [|lia].
    unfold top_indices, slice_to. destruct (Z.leb_spec 0 top_n); [|lia].
    destruct (Ha (map Ropp sims)) as [Hp _].
    rewrite firstn_all2.
    + apply (Permutation_in _ (Permutation_sym Hp)), in_seq.
      rewrite length_map. lia.
    + rewrite (Permutation_length Hp), length_seq, length_map. lia.
Qed.

Lemma find_similar_images_index_error_witness :
  find_similar_images eps_float32 embed_unit_x (insertion_argsort true)
    "q.png" four_rows ["images/a.png"%string] 5 = Raised IndexError.
Proof.
  apply (@find_similar_images_index_error eps_float32 embed_unit_x
           (insertion_argsort true) "q.png" [1; 0] four_rows
           ["images/a.png"%string] 5).
  - apply insertion_argsort_spec.
  - reflexivity.
  - repeat split; [discriminate | simpl; lia | repeat constructor].
  - simpl. lia.
  - simpl. lia.
Defined.

(** *** Score values *)

Lemma scores_entry (eps : R) (qn : vec) (X : matrix) (j : nat) :
  nth j (scores eps qn X) 0
  = dot (normalize_row eps qn) (normalize_row eps (nth j X [])).
Proof.
  unfold scores.
  rewrite <- (map_nth (fun y => dot (normalize_row eps qn) (normalize_row eps y))
                X [] j).
  f_equal. unfold normalize_row at 2. simpl.
  now destruct (normalize_row eps qn).
Qed.

(** For a query and a row whose norms are not below [normalize]'s
    threshold, the score is the cosine of the raw query embedding and the
    row: their dot product over the product of their norms. *)
Theorem score_is_cosine (eps : R)
  (extract_features : string -> outcome vec) (q : string) (qf qn : vec)
  (X : matrix) (sims : list R) (j : nat) :
  0 < eps -> 10 * eps <= 1 ->
  extract_features q = Returned qf ->
  query_embedding eps extract_features q = Returned qn ->
  similarities eps qn X = Returned sims ->
  10 * eps <= l2norm qf ->
  10 * eps <= l2norm (nth j X []) ->
  nth j sims 0 = dot qf (nth j X []) / (l2norm qf * l2norm (nth j X [])).
Proof.
  intros Heps Hsmall He Hq Hs Hqf Hrow.
  rewrite (StoreClaims.query_embedding_returned _ _ _ He Hq) in Hs.
  destruct (similarities_returned _ _ _ Hs) as [-> _].
  rewrite scores_entry, (normalize_row_twice Heps Hsmall).
  now apply normalized_dot_is_cosine.
Qed.

Lemma score_is_cosine_witness :
  exists qn sims,
    query_embedding eps_float32 embed_unit_x "q.png" = Returned qn
    /\ similarities eps_float32 qn twins = Returned sims
    /\ nth 0 sims 0
       = dot [1; 0] (nth 0 twins []) / (l2norm [1; 0] * l2norm (nth 0 twins [])).
Proof.
  assert (Hq : query_embedding eps_float32 embed_unit_x "q.png"
               = Returned (normalize_row eps_float32 [1; 0])).
  { apply query_embedding_ok; [reflexivity | simpl; lia]. }
  assert (Hs : similarities eps_float32 (normalize_row eps_float32 [1; 0]) twins
               = Returned (scores eps_float32 (normalize_row eps_float32 [1; 0])
                             twins)).
  { apply similarities_ok. rewrite normalize_row_length. apply twins_well_shaped. }
  assert (Hbig : 10 * eps_float32 <= l2norm [1; 0]).
  { rewrite NormClaims.l2norm_unit_x. apply eps_float32_small. }
  do 2 eexists. split; [exact Hq|]. split; [exact Hs|].
  apply (@score_is_cosine eps_float32 embed_unit_x "q.png" [1; 0] _ twins _ 0%nat
           eps_float32_pos eps_float32_small eq_refl Hq Hs Hbig Hbig).
Defined.

End RankerExtras.

(* ================================================================== *)
(** ** More on the feature store: failures, progress, stale caches *)
(* ================================================================== *)

Module StoreMore.

Import Py PyStr Scanner Linalg LinalgFacts Npy NpyFacts Ranker Store.
Import FeatureStore FeatureStoreFacts.
Local Open Scope string_scope.
Local Open Scope list_scope.

(** The report [stqdm] makes before it yields item [i] of [n] (lines
    101-102). *)
Definition progress_report (desc : string) (n i : nat) : ui_event :=
  EvProgress (i + 1) n
    (desc ++ ": " ++ str_of_nat (i + 1) ++ "/" ++ str_of_nat n)%string.

Definition DESC : string := "Extracting folder features".

(** [omap] raises what the first failing call raises. *)
Lemma omap_raised {A B : Type} (f : A -> outcome B) (d : A) (l : list A) (e : exn) :
  omap f l = Raised e ->
  exists k, (k < List.length l)%nat
            /\ f (nth k l d) = Raised e
            /\ forall m, (m < k)%nat -> exists y, f (nth m l d) = Returned y.
Proof.
  induction l as [|x l IH]; simpl; [discriminate|].
  destruct (f x) as [y|e'] eqn:Ex; simpl.
  - destruct (omap f l) as [ys|e''] eqn:Eo; simpl; [discriminate|].
    intros [= ->]. destruct (IH eq_refl) as (k & Hk & Hf & Hb).
    exists (S k). split; [lia|]. split; [exact Hf|].
    intros [|m] Hm; [now exists y|]. apply Hb. lia.
  - intros [= ->]. exists 0%nat. split; [lia|]. split; [exact Ex|].
    intros m Hm. lia.
Qed.

Section Loop.

Variable extract_features : string -> outcome vec.

(** The loop of lines 68-69 when every image embeds: one report per file,
    in order. *)
Lemma extract_loop_reports (desc : string) (n : nat) (fns : list string) :
  forall i w vs,
    omap extract_features fns = Returned vs ->
    extract_loop extract_features desc i n fns w
    = (Returned vs,
       with_events w (map (progress_report desc n) (seq i (List.length fns)))).
Proof.
  induction fns as [|fn rest IH]; intros i w vs Ho; simpl in *.
  - injection Ho as <-. unfold ret. now rewrite with_events_nil.
  - destruct (extract_features fn) as [v|] eqn:Ev; simpl in Ho; [|discriminate].
    destruct (omap extract_features rest) as [r|] eqn:Er; simpl in Ho;
      [|discriminate].
    injection Ho as <-.
    unfold bind at 1. unfold emit at 1. unfold bind at 1. unfold lift at 1.
    unfold bind at 1.
    rewrite (IH (i + 1)%nat _ r eq_refl). unfold ret.
    f_equal. unfold with_events. simpl. rewrite <- app_assoc. simpl.
    now replace (S i) with (i + 1)%nat by lia.
Qed.

(** The loop when an image fails: the reports run up to the failing file,
    and the exception leaves the loop. *)
Lemma extract_loop_reports_until_failure (desc : string) (n : nat)
  (fns : list string) (e : exn) :
  forall i w,
    omap extract_features fns = Raised e ->
    exists k,
      (k < List.length fns)%nat
      /\ extract_features (nth k fns EmptyString) = Raised e
      /\ (forall m, (m < k)%nat ->
            exists y, extract_features (nth m fns EmptyString) = Returned y)
      /\ extract_loop extract_features desc i n fns w
         = (Raised e,
            with_events w (map (progress_report desc n) (seq i (k + 1)))).
Proof.
  induction fns as [|fn rest IH]; intros i w Ho; simpl in *; [discriminate|].
  unfold bind at 1. unfold emit at 1. unfold bind at 1. unfold lift at 1.
  destruct (extract_features fn) as [v|e'] eqn:Ev; simpl in Ho.
  - destruct (omap extract_features rest) as [r|e''] eqn:Er; simpl in Ho;
      [discriminate|].
    injection Ho as ->.
    set (w1 := mkWorld _ _ _ _ _).
    destruct (IH (i + 1)%nat w1 eq_refl) as (k & Hk & Hf & Hb & Hl).
    exists (S k). split; [lia|]. split; [exact Hf|]. split.
    + intros [|m] Hm; [now exists v|]. apply Hb. lia.
    + unfold bind at 1. rewrite Hl. f_equal.
      unfold with_events, w1. simpl. rewrite <- app_assoc. simpl.
      now replace (S i) with (i + 1)%nat by lia.
  - injection Ho as ->. exists 0%nat. split; [lia|]. split; [exact Ev|].
    split; [intros m Hm; lia | reflexivity].
Qed.

End Loop.

Section Build.

Variable eps : R.
Variable extract_features : string -> outcome vec.

(** The events of a build whose images all embed. *)
Definition build_events (n : nat) : list ui_event :=
  EvProgressNew :: map (progress_report DESC n) (seq 0 n) ++ [EvProgressEmpty].

Lemma build_run_extracted (image_dir : string) (w : world) (vs : matrix) :
  scanned w image_dir <> [] ->
  omap extract_features (scanned w image_dir) = Returned vs ->
  compute_and_cache_features eps extract_features image_dir w
  = match normalize eps vs with
    | Returned X =>
        (Returned (scanned w image_dir, X),
         with_caches
           (with_events w (build_events (List.length (scanned w image_dir))))
           X (scanned w image_dir))
    | Raised e =>
        (Raised e,
         with_events w (build_events (List.length (scanned w image_dir))))
    end.
Proof.
  intros Hne Ho. unfold compute_and_cache_features. unfold bind at 1.
  unfold scan at 1. set (fs := scanned w image_dir) in *.
  replace (Nat.eqb (List.length fs) 0) with false
    by (destruct fs; [contradiction | reflexivity]).
  unfold bind at 1. unfold emit at 1. unfold bind at 1.
  fold DESC. rewrite (extract_loop_reports extract_features DESC _ fs 0 _ Ho).
  unfold bind at 1. unfold emit at 1. unfold bind at 1. unfold lift at 1.
  unfold build_events.
  destruct (normalize eps vs) as [X|e]; simpl.
  - unfold bind, save_features, save_filenames, ret, with_caches, with_events.
    simpl. now rewrite <- !app_assoc.
  - unfold with_events. simpl. now rewrite <- !app_assoc.
Qed.

Lemma build_run_failed (image_dir : string) (w : world) (e : exn) :
  omap extract_features (scanned w image_dir) = Raised e ->
  exists k,
    (k < List.length (scanned w image_dir))%nat
    /\ extract_features (nth k (scanned w image_dir) EmptyString) = Raised e
    /\ (forall m, (m < k)%nat ->
          exists y, extract_features (nth m (scanned w image_dir) EmptyString)
                    = Returned y)
    /\ compute_and_cache_features eps extract_features image_dir w
       = (Raised e,
          with_events w
            (EvProgressNew
               :: map (progress_report DESC (List.length (scanned w image_dir)))
                    (seq 0 (k + 1)))).
Proof.
  intros Ho. unfold compute_and_cache_features. unfold bind at 1.
  unfold scan at 1. set (fs := scanned w image_dir) in *.
  assert (Hne : fs <> []) by (intros E; rewrite E in Ho; discriminate).
  replace (Nat.eqb (List.length fs) 0) with false
    by (destruct fs; [contradiction | reflexivity]).
  unfold bind at 1. unfold emit at 1. unfold bind at 1. fold DESC.
  set (w1 := mkWorld _ _ _ _ _).
  destruct (extract_loop_reports_until_failure extract_features DESC
              (List.length fs) fs 0 w1 Ho) as (k & Hk & Hf & Hb & Hl).
  exists k. split; [exact Hk|]. split; [exact Hf|]. split; [exact Hb|].
  rewrite Hl. f_equal. unfold with_events, w1. simpl.
  now rewrite <- app_assoc.
Qed.

End Build.

End StoreMore.

Module StoreExtras.

Import Py PyStr Scanner Linalg LinalgFacts Npy NpyFacts Ranker Store.
Import FeatureStore FeatureStoreFacts StoreMore Worlds.
Local Open Scope string_scope.
Local Open Scope list_scope.

(** An embedding function that fails on every image. *)
Definition embed_broken (path : string) : outcome vec :=
  Raised UnidentifiedImageError.

Lemma one_image_build :
  compute_and_cache_features eps_float32 embed_unit_x IMAGE_DIR w_one_image
  = (Returned (["images/a.png"], map (normalize_row eps_float32) [[1; 0]%R]),
     with_caches (with_events w_one_image (build_events 1))
       (map (normalize_row eps_float32) [[1; 0]%R]) ["images/a.png"]).
Proof.
  assert (Hne : scanned w_one_image IMAGE_DIR <> [])
    by (rewrite scanned_one_image; discriminate).
  rewrite (@build_run_extracted eps_float32 embed_unit_x IMAGE_DIR w_one_image
             [[1; 0]%R] Hne eq_refl).
  rewrite (@normalize_ok eps_float32 2 [[1; 0]%R]);
    [|repeat split; [discriminate | lia | repeat constructor]].
  now rewrite scanned_one_image.
Qed.

(** A build that raises has written neither cache artifact and touched no
    file: it raises what the first failing extraction, or [normalize],
    raised, and only the page has changed. *)
Theorem build_failure_writes_nothing (eps : R)
  (extract_features : string -> outcome vec) (image_dir : string)
  (w w' : world) (e : exn) :
  compute_and_cache_features eps extract_features image_dir w = (Raised e, w') ->
  obind (omap extract_features (scanned w image_dir)) (normalize eps) = Raised e
  /\ w_feat_cache w' = w_feat_cache w
  /\ w_name_cache w' = w_name_cache w
  /\ w_temp w' = w_temp w
  /\ w_dirs w' = w_dirs w.
Proof.
  intros H.
  destruct (scanned w image_dir) as [|f0 fs0] eqn:Es.
  - rewrite (@build_empty eps extract_features image_dir w Es) in H.
    discriminate.
  - assert (Hne : scanned w image_dir <> []) by (rewrite Es; discriminate).
    destruct (@build_nonempty eps extract_features image_dir w Hne)
      as (evs & Hb).
    rewrite Hb, Es in H.
    destruct (obind (omap extract_features (f0 :: fs0)) (normalize eps))
      as [X|e']; [discriminate|].
    injection H as <- <-. repeat split.
Qed.

Lemma build_failure_writes_nothing_witness :
  exists w',
    compute_and_cache_features eps_float32 embed_broken IMAGE_DIR w_one_image
    = (Raised UnidentifiedImageError, w')
    /\ w_feat_cache w' = None
    /\ w_name_cache w' = None.
Proof.
  destruct (@build_run_failed eps_float32 embed_broken IMAGE_DIR w_one_image
              UnidentifiedImageError eq_refl) as (k & _ & _ & _ & H).
  eexists. split; [exact H|].
  destruct (@build_failure_writes_nothing eps_float32 embed_broken IMAGE_DIR
              w_one_image _ _ H) as (_ & Hf & Hn & _).
  split; [exact Hf | exact Hn].
Defined.

(** A build over [n >= 1] files that returns has put on the page, in this
    order: a new progress bar, the reports 1 of [n], 2 of [n], ..., [n] of
    [n], and the removal of the bar; no report exceeds its total. *)
Theorem build_reports_progress (eps : R)
  (extract_features : string -> outcome vec) (image_dir : string)
  (w w' : world) (fs : list string) (X : matrix) :
  compute_and_cache_features eps extract_features image_dir w
  = (Returned (fs, X), w') ->
  fs <> [] ->
  w_page w'
  = w_page w
      ++ EvProgressNew
      :: map (progress_report DESC (List.length fs)) (seq 0 (List.length fs))
      ++ [EvProgressEmpty]
  /\ forall i, (i < List.length fs)%nat ->
       exists text,
         progress_report DESC (List.length fs) i
         = EvProgress (i + 1) (List.length fs) text
         /\ (1 <= i + 1 <= List.length fs)%nat.
Proof.
  intros H Hne.
  destruct (build_returned _ _ _ _ H Hne) as (vs & evs & Hfs & Ho & _ & HX & _).
  assert (Hs : scanned w image_dir <> []) by now rewrite <- Hfs.
  rewrite Hfs in Ho.
  rewrite (@build_run_extracted eps extract_features image_dir w vs Hs Ho) in H.
  destruct (normalize eps vs) as [X'|e']; [|discriminate].
  injection H as _ _ <-. rewrite <- Hfs. split; [reflexivity|].
  intros i Hi. eexists. split; [reflexivity | lia].
Qed.

Lemma build_reports_progress_witness :
  exists w',
    compute_and_cache_features eps_float32 embed_unit_x IMAGE_DIR w_one_image
    = (Returned (["images/a.png"], map (normalize_row eps_float32) [[1; 0]%R]),
       w')
    /\ w_page w'
       = [EvProgressNew;
          EvProgress 1 1 "Extracting folder features: 1/1";
          EvProgressEmpty].
Proof.
  eexists. split; [exact one_image_build|].
  destruct (@build_reports_progress eps_float32 embed_unit_x IMAGE_DIR
              w_one_image _ _ _ one_image_build) as [Hp _].
  - discriminate.
  - exact Hp.
Defined.

(** When the extraction of a file raises, the build raises the same
    exception, having reported every file up to and including the failing
    one; the progress bar is not removed. *)
Theorem build_failure_leaves_progress_bar (eps : R)
  (extract_features : string -> outcome vec) (image_dir : string) (w : world)
  (e : exn) :
  omap extract_features (scanned w image_dir) = Raised e ->
  exists k w',
    (k < List.length (scanned w image_dir))%nat
    /\ extract_features (nth k (scanned w image_dir) EmptyString) = Raised e
    /\ (forall m, (m < k)%nat ->
          exists y, extract_features (nth m (scanned w image_dir) EmptyString)
                    = Returned y)
    /\ compute_and_cache_features eps extract_features image_dir w
       = (Raised e, w')
    /\ w_page w'
       = w_page w
           ++ EvProgressNew
           :: map (progress_report DESC (List.length (scanned w image_dir)))
                (seq 0 (k + 1))
    /\ ~ In EvProgressEmpty
           (EvProgressNew
              :: map (progress_report DESC (List.length (scanned w image_dir)))
                   (seq 0 (k + 1))).
Proof.
  intros Ho.
  destruct (@build_run_failed eps extract_features image_dir w e Ho)
    as (k & Hk & Hf & Hb & H).
  exists k. eexists. split; [exact Hk|]. split; [exact Hf|].
  split; [exact Hb|]. split; [exact H|]. split; [reflexivity|].
  intros [Hin|Hin]; [discriminate|].
  apply in_map_iff in Hin as (i & Hi & _). discriminate.
Qed.

Lemma build_failure_leaves_progress_bar_witness :
  exists w',
    compute_and_cache_features eps_float32 embed_broken IMAGE_DIR w_one_image
    = (Raised UnidentifiedImageError, w')
    /\ w_page w'
       = [EvProgressNew; EvProgress 1 1 "Extracting folder features: 1/1"].
Proof.
  destruct (@build_failure_leaves_progress_bar eps_float32 embed_broken
              IMAGE_DIR w_one_image UnidentifiedImageError eq_refl)
    as (k & w' & Hk & _ & _ & H & Hp & _).
  exists w'. split; [exact H|]. rewrite Hp.
  rewrite scanned_one_image in Hk. simpl in Hk.
  assert (k = 0)%nat as -> by lia. reflexivity.
Defined.

(** Once a load has returned a non-empty corpus, loading again returns the
    same pair and changes nothing: the second call is a cache hit, whether
    the first was one or was a build. *)
Theorem load_twice_is_load_once (eps : R)
  (extract_features : string -> outcome vec) (image_dir : string)
  (w w' : world) (fs : list string) (X : matrix) :
  load_image_features eps extract_features image_dir w = (Returned (fs, X), w') ->
  fs <> [] ->
  load_image_features eps extract_features image_dir w' = (Returned (fs, X), w').
Proof.
  intros H Hne.
  assert (Hbuild :
    compute_and_cache_features eps extract_features image_dir w
    = (Returned (fs, X), w') ->
    load_image_features eps extract_features image_dir w'
    = (Returned (fs, X), w')).
  { intros Hb.
    destruct (build_returned _ _ _ _ Hb Hne)
      as (vs & evs & Hfs & _ & Hw & -> & ->).
    apply load_after_save.
    - apply normalized_rows_length, Hw.
    - rewrite Hfs. apply scanned_no_trailing_nul. }
  unfold load_image_features in H.
  destruct (w_feat_cache w) as [ff|] eqn:Ef; [|now apply Hbuild].
  destruct (w_name_cache w) as [nf|] eqn:En; [|now apply Hbuild].
  unfold bind, ret, lift in H.
  destruct (np_load_matrix ff) as [X0|e] eqn:El; [|discriminate].
  injection H as <- <- <-.
  now apply (load_hit eps extract_features image_dir w Ef En El).
Qed.

Lemma load_twice_is_load_once_witness :
  exists fs X w',
    load_image_features eps_float32 embed_unit_x IMAGE_DIR w_one_image
    = (Returned (fs, X), w')
    /\ fs = ["images/a.png"]
    /\ load_image_features eps_float32 embed_unit_x IMAGE_DIR w'
       = (Returned (fs, X), w').
Proof.
  assert (H : load_image_features eps_float32 embed_unit_x IMAGE_DIR w_one_image
              = (Returned (["images/a.png"],
                           map (normalize_row eps_float32) [[1; 0]%R]),
                 with_caches (with_events w_one_image (build_events 1))
                   (map (normalize_row eps_float32) [[1; 0]%R])
                   ["images/a.png"]))
    by exact one_image_build.
  do 3 eexists. split; [exact H|]. split; [reflexivity|].
  apply (@load_twice_is_load_once eps_float32 embed_unit_x IMAGE_DIR
           w_one_image _ _ _ H).
  discriminate.
Defined.

(** The cache is trusted once present: after a build that returned a
    non-empty corpus, a load returns the pair of that build whatever the
    image directory has become since, whatever the directory, model and
    precision it is called with; it scans nothing, embeds nothing and
    writes nothing. *)
Theorem stale_cache_is_served (eps : R)
  (extract_features : string -> outcome vec) (image_dir : string)
  (w w' : world) (fs : list string) (X : matrix) :
  compute_and_cache_features eps extract_features image_dir w
  = (Returned (fs, X), w') ->
  fs <> [] ->
  forall eps' extract_features' image_dir' dirs' temp' page',
    let later := mkWorld dirs' (w_feat_cache w') (w_name_cache w') temp' page' in
    load_image_features eps' extract_features' image_dir' later
    = (Returned (fs, X), later).
Proof.
  intros H Hne eps' ext' dir' dirs' temp' page' later.
  destruct (build_returned _ _ _ _ H Hne)
    as (vs & evs & Hfs & _ & Hw & -> & ->).
  set (X := map (normalize_row eps) vs) in *.
  assert (Hl : np_load_matrix (np_save_matrix X) = Returned X)
    by apply np_load_save_matrix, normalized_rows_length, Hw.
  rewrite (@load_hit eps' ext' dir' later (np_save_matrix X)
             (np_save_strings fs) X eq_refl eq_refl Hl).
  rewrite np_load_save_names; [reflexivity|].
  rewrite Hfs. apply scanned_no_trailing_nul.
Qed.

Lemma stale_cache_is_served_witness :
  exists fs X w',
    compute_and_cache_features eps_float32 embed_unit_x IMAGE_DIR w_one_image
    = (Returned (fs, X), w')
    /\ let later :=
         mkWorld (fun _ => None) (w_feat_cache w') (w_name_cache w') [] [] in
       load_image_features eps_float32 embed_broken IMAGE_DIR later
       = (Returned (fs, X), later).
Proof.
  do 3 eexists. split; [exact one_image_build|].
  apply (@stale_cache_is_served eps_float32 embed_unit_x IMAGE_DIR w_one_image
           _ _ _ one_image_build).
  discriminate.
Defined.

End StoreExtras.

(* ================================================================== *)
(** ** More on the scanner: where the paths lie, and their base names *)
(* ================================================================== *)

Module ScannerMore.

Import PyStr Scanner ScannerFacts Script.
Local Open Scope list_scope.
Local Open Scope string_scope.

(** A name without a slash, as every name of a directory entry is. *)
Fixpoint slash_free (s : string) : bool :=
  match s with
  | EmptyString => true
  | String c s' => negb (Ascii.eqb c "/"%char) && slash_free s'
  end.

(** A tree all of whose file and directory names are without a slash. *)
Fixpoint tree_slash_free (d : dir) : bool :=
  match d with
  | Dir fs subs =>
      forallb slash_free fs
      && forallb (fun nd => slash_free (fst nd) && tree_slash_free (snd nd)) subs
  end.

Lemma append_assoc (a b c : string) : (a ++ b) ++ c = a ++ b ++ c.
Proof. induction a as [|x a IH]; simpl; congruence. Qed.

Lemma append_nil_r (a : string) : a ++ EmptyString = a.
Proof. induction a as [|x a IH]; simpl; congruence. Qed.

Lemma startswith_app (a b : string) : startswith (a ++ b) a = true.
Proof.
  induction a as [|x a IH]; simpl; [now destruct b|].
  now rewrite Ascii.eqb_refl.
Qed.

Lemma slash_free_no_lead (f : string) :
  slash_free f = true -> startswith f "/" = false.
Proof.
  destruct f as [|c f]; [reflexivity|]. cbn [startswith slash_free].
  rewrite (Ascii.eqb_sym "/"%char c).
  destruct (Ascii.eqb c "/"%char); [discriminate | reflexivity].
Qed.

(** A joined path continues its first part. *)
Lemma join_extends (a f : string) :
  slash_free f = true -> exists r, join a f = a ++ r.
Proof.
  intros H. unfold join. rewrite (slash_free_no_lead f H).
  destruct ((a =? EmptyString) || endswith a "/"); eexists; reflexivity.
Qed.

Lemma basename_from_slash_free (f : string) :
  slash_free f = true -> forall acc, basename_from acc f = acc ++ f.
Proof.
  induction f as [|c f IH]; simpl; intros H acc.
  - now rewrite append_nil_r.
  - apply andb_prop in H as [Hc Hf].
    destruct (Ascii.eqb c "/"%char); [discriminate|].
    rewrite (IH Hf). now rewrite append_assoc.
Qed.

Lemma basename_from_after_slash (a f : string) :
  forall acc,
    basename_from acc (a ++ String "/"%char f) = basename_from EmptyString f.
Proof.
  induction a as [|c a IH]; intros acc; simpl; [reflexivity|].
  destruct (Ascii.eqb c "/"%char); apply IH.
Qed.

(** [os.path.basename] undoes [os.path.join] on a name without slash. *)
Lemma basename_join (a f : string) :
  slash_free f = true -> basename (join a f) = f.
Proof.
  intros H. unfold basename, join. rewrite (slash_free_no_lead f H).
  destruct (a =? EmptyString) eqn:Ea; simpl.
  - apply String.eqb_eq in Ea. subst a. simpl.
    now rewrite (basename_from_slash_free f H).
  - destruct (endswith a "/") eqn:Ee.
    + apply endswith_spec in Ee as (p & ->).
      rewrite append_assoc. change ("/" ++ f) with (String "/"%char f).
      rewrite basename_from_after_slash.
      now rewrite (basename_from_slash_free f H).
    + change (a ++ "/" ++ f) with (a ++ String "/"%char f).
      rewrite basename_from_after_slash.
      now rewrite (basename_from_slash_free f H).
Qed.

(** In a tree of slash-free names, every file lies in a directory whose
    path continues the root's, and has a slash-free name. *)
Lemma files_under_extend (d : dir) :
  forall top sub f,
    tree_slash_free d = true ->
    In (sub, f) (files_under top d) ->
    (exists r, sub = top ++ r) /\ slash_free f = true.
Proof.
  induction d as [fs subs IH] using dir_rect'. intros top sub f Hok Hin.
  cbn [tree_slash_free] in Hok. apply andb_prop in Hok as [Hfs Hsubs].
  cbn [files_under] in Hin. apply in_app_or in Hin as [Hin|Hin].
  - apply in_map_iff in Hin as (f' & [= <- <-] & Hf').
    split; [exists EmptyString; now rewrite append_nil_r|].
    rewrite forallb_forall in Hfs. now apply Hfs.
  - apply in_flat_map in Hin as ([n d'] & Hnd & Hin). simpl in Hin.
    rewrite forallb_forall in Hsubs.
    pose proof (Hsubs _ Hnd) as Hn. simpl in Hn.
    apply andb_prop in Hn as [Hn Hd'].
    rewrite Forall_forall in IH.
    destruct (IH _ Hnd (join top n) sub f Hd' Hin) as [(r & ->) Hf].
    split; [|exact Hf].
    destruct (join_extends top n Hn) as (r' & ->).
    exists (r' ++ r). now rewrite append_assoc.
Qed.

Lemma scanned_path_origin (root_dir : string) (d : dir) (p : string) :
  In p (get_all_image_files root_dir d) ->
  exists sub f, In (sub, f) (files_under root_dir d)
                /\ is_image_name f = true /\ p = join sub f.
Proof.
  intros Hp. unfold get_all_image_files in Hp.
  apply (Permutation_in _ (Permutation_sym (PySorted.sorted_perm _))) in Hp.
  rewrite collect_files_walk in Hp.
  apply in_map_iff in Hp as ([sub f] & <- & Hin).
  apply filter_In in Hin as [Hin Himg].
  now exists sub, f.
Qed.

End ScannerMore.

Module ScannerExtras.

Import PyStr Scanner ScannerFacts Script ScannerMore.
Local Open Scope list_scope.
Local Open Scope string_scope.

(** Every path a scan returns begins with the root directory it was given
    (the names of directory entries hold no slash). *)
Theorem scan_stays_under_root (root_dir : string) (d : dir) (p : string) :
  tree_slash_free d = true ->
  In p (get_all_image_files root_dir d) ->
  startswith p root_dir = true.
Proof.
  intros Hok Hp.
  destruct (scanned_path_origin root_dir d p Hp) as (sub & f & Hin & _ & ->).
  destruct (files_under_extend d root_dir sub f Hok Hin) as [(r & ->) Hf].
  destruct (join_extends (root_dir ++ r) f Hf) as (r' & ->).
  rewrite append_assoc. apply startswith_app.
Qed.

Lemma scan_stays_under_root_witness :
  startswith "images/sub/a.TiFf" "images" = true.
Proof.
  apply (@scan_stays_under_root "images"
           (Dir ["b.JPG"; "notes.txt"; "jpg"; ".png"]
                [("sub", Dir ["a.TiFf"; "c.gif"] []); ("z", Dir [] [])])
           "images/sub/a.TiFf").
  - reflexivity.
  - rewrite scan_small_tree. simpl. tauto.
Defined.

(** The display name of line 118 of a scanned path is the name of the
    image file itself, extension included: [os.path.basename] takes off
    exactly what [os.path.join] put before it. *)
Theorem display_name_is_file_name (root_dir : string) (d : dir) (p : string) :
  tree_slash_free d = true ->
  In p (get_all_image_files root_dir d) ->
  exists sub f,
    In (sub, f) (files_under root_dir d)
    /\ p = join sub f
    /\ basename p = f
    /\ is_image_name (basename p) = true.
Proof.
  intros Hok Hp.
  destruct (scanned_path_origin root_dir d p Hp) as (sub & f & Hin & Himg & ->).
  destruct (files_under_extend d root_dir sub f Hok Hin) as [_ Hf].
  exists sub, f. rewrite (basename_join sub f Hf). now repeat split.
Qed.

Lemma display_name_is_file_name_witness :
  exists sub f,
    "images/sub/a.TiFf" = join sub f
    /\ basename "images/sub/a.TiFf" = f
    /\ is_image_name (basename "images/sub/a.TiFf") = true.
Proof.
  destruct (@display_name_is_file_name "images"
              (Dir ["b.JPG"; "notes.txt"; "jpg"; ".png"]
                   [("sub", Dir ["a.TiFf"; "c.gif"] []); ("z", Dir [] [])])
              "images/sub/a.TiFf") as (sub & f & _ & Hj & Hb & Hi).
  - reflexivity.
  - rewrite scan_small_tree. simpl. tauto.
  - now exists sub, f.
Defined.

End ScannerExtras.

(* ================================================================== *)
(** ** More on the script: the selected image and the temporary file *)
(* ================================================================== *)

Module ScriptExtras.

Import Py PyStr Scanner Linalg LinalgFacts Npy NpyFacts Ranker ArgsortFacts.
Import RankerFacts RankerClaims RankerExtras Store FeatureStore.
Import FeatureStoreFacts Script ScriptClaims.
Local Open Scope string_scope.
Local Open Scope list_scope.

(** *** The select box: lines 118-120 *)

Lemma list_index_found (x : string) (l : list string) :
  In x l ->
  exists i, list_index x l = Returned i
            /\ (i < List.length l)%nat
            /\ nth i l EmptyString = x
            /\ forall k, (k < i)%nat -> nth k l EmptyString <> x.
Proof.
  induction l as [|y l IH]; intros Hin; [contradiction|]. simpl.
  destruct (String.eqb y x) eqn:E.
  - apply String.eqb_eq in E. exists 0%nat.
    repeat split; [simpl; lia | exact E | intros k Hk; lia].
  - apply String.eqb_neq in E. destruct Hin as [Hin|Hin]; [contradiction|].
    destruct (IH Hin) as (i & -> & Hi & Hx & Hb). exists (S i).
    repeat split; [simpl; lia | exact Hx |].
    intros [|k] Hk; [exact E|]. apply Hb. lia.
Qed.

Lemma list_index_missing (x : string) (l : list string) :
  ~ In x l -> list_index x l = Raised ValueError.
Proof.
  induction l as [|y l IH]; intros Hn; [reflexivity|]. simpl.
  destruct (String.eqb y x) eqn:E.
  - apply String.eqb_eq in E. exfalso. apply Hn. now left.
  - rewrite IH; [reflexivity|]. intros H. apply Hn. now right.
Qed.

(** The image the select box picks is the first corpus file whose base
    name is the chosen display name: a file that shares its base name with
    an earlier file of the corpus can never be selected.  A name that is
    no display name raises [ValueError]. *)
Theorem selection_is_first_basename_match (choice : string)
  (image_files : list string) :
  (In choice (map basename image_files) ->
   exists i,
     list_index choice (map basename image_files) = Returned i
     /\ index image_files i = Returned (nth i image_files EmptyString)
     /\ basename (nth i image_files EmptyString) = choice
     /\ forall k, (k < i)%nat ->
                  basename (nth k image_files EmptyString) <> choice)
  /\ (~ In choice (map basename image_files) ->
      list_index choice (map basename image_files) = Raised ValueError).
Proof.
  split; [|apply list_index_missing].
  intros Hin.
  destruct (list_index_found choice (map basename image_files) Hin)
    as (i & Hl & Hi & Hx & Hb).
  rewrite length_map in Hi.
  assert (Hnth : forall k, (k < List.length image_files)%nat ->
            nth k (map basename image_files) EmptyString
            = basename (nth k image_files EmptyString)).
  { intros k Hk. rewrite (nth_indep _ EmptyString (basename EmptyString))
      by (rewrite length_map; exact Hk). apply map_nth. }
  exists i. split; [exact Hl|]. split; [now apply index_ok|].
  split; [now rewrite <- Hnth|].
  intros k Hk. rewrite <- Hnth by lia. now apply Hb.
Qed.

Lemma selection_is_first_basename_match_witness :
  exists i,
    list_index "cat.png"
      (map basename ["images/a/cat.png"; "images/b/cat.png"]) = Returned i
    /\ index ["images/a/cat.png"; "images/b/cat.png"] i
       = Returned (nth i ["images/a/cat.png"; "images/b/cat.png"] EmptyString)
    /\ list_index "dog.png"
         (map basename ["images/a/cat.png"; "images/b/cat.png"])
       = Raised ValueError.
Proof.
  destruct (selection_is_first_basename_match "cat.png"
              ["images/a/cat.png"; "images/b/cat.png"]) as [Hfound _].
  destruct (selection_is_first_basename_match "dog.png"
              ["images/a/cat.png"; "images/b/cat.png"]) as [_ Hmiss].
  destruct Hfound as (i & Hl & Hi & _); [left; reflexivity|].
  exists i. split; [exact Hl|]. split; [exact Hi|].
  apply Hmiss. simpl. intuition discriminate.
Defined.

(** Two files named [cat.png] in different folders: choosing [cat.png]
    always gives the first. *)
Example selection_of_a_shared_name :
  obind (list_index "cat.png"
           (map basename ["images/a/cat.png"; "images/b/cat.png"]))
        (index ["images/a/cat.png"; "images/b/cat.png"])
  = Returned "images/a/cat.png".
Proof. reflexivity. Qed.

(** *** The temporary file: lines 122-145 *)

(** The world with [path] removed from [temp/]. *)
Definition without_temp (w : world) (path : string) : world :=
  mkWorld (w_dirs w) (w_feat_cache w) (w_name_cache w)
          (filter (fun p => negb (String.eqb path p)) (w_temp w))
          (w_page w).

Lemma remove_after_save (w : world) (path : string) :
  os_remove path (saved w path) = (Returned tt, without_temp w path).
Proof.
  unfold os_remove.
  replace (existsb (String.eqb path) (w_temp (saved w path))) with true.
  - f_equal. unfold without_temp, saved. simpl. f_equal.
    destruct (existsb (String.eqb path) (w_temp w)); [reflexivity|].
    simpl. now rewrite String.eqb_refl.
  - symmetry. apply existsb_exists. exists path.
    split; [apply saved_in_temp | apply String.eqb_refl].
Qed.

Lemma query_section_none_world (eps : R)
  (extract_features : string -> outcome vec) (argsort : list R -> list nat)
  (opens : string -> bool) (selected_path : string) (image_feats : matrix)
  (image_files : list string) (w : world) :
  snd (query_section eps extract_features argsort opens None selected_path
         image_feats image_files w) = w.
Proof.
  unfold query_section, bind, image_open, lift, ret, raise.
  destruct (opens selected_path); [|reflexivity].
  destruct (find_similar_images eps extract_features argsort selected_path
              image_feats image_files TOP_N) as [res|e]; [|reflexivity].
  pose proof (show_results_world opens res w) as Hw.
  destruct (show_results opens res w) as [[[]|e] w1]; simpl in *; now subst.
Qed.

(** The disk of a world: the corpus directories, the two cache files and
    the files under [temp/]. *)
Definition same_disk (w1 w2 : world) : Prop :=
  w_dirs w1 = w_dirs w2
  /\ w_feat_cache w1 = w_feat_cache w2
  /\ w_name_cache w1 = w_name_cache w2
  /\ w_temp w1 = w_temp w2.

(** Without an upload the query section writes and removes nothing on the
    disk, whether the search returns or raises; when the selected corpus
    image cannot be opened the section raises whatever the search would
    do; and an upload that PIL cannot decode makes the section raise
    before anything is written under [temp/]. *)
Theorem nothing_written_without_decodable_upload (eps : R)
  (extract_features : string -> outcome vec) (argsort : list R -> list nat)
  (opens : string -> bool) (selected_path : string) (image_feats : matrix)
  (image_files : list string) (w : world) :
  same_disk (snd (query_section eps extract_features argsort opens None
                    selected_path image_feats image_files w)) w
  /\ (opens selected_path = false ->
      exists e,
        fst (query_section eps extract_features argsort opens None
               selected_path image_feats image_files w) = Raised e)
  /\ (forall u, up_decodes u = false ->
        (exists e,
           fst (query_section eps extract_features argsort opens (Some u)
                  selected_path image_feats image_files w) = Raised e)
        /\ same_disk (snd (query_section eps extract_features argsort opens
                             (Some u) selected_path image_feats image_files w))
                     w).
Proof.
  split; [|split].
  - rewrite query_section_none_world. now repeat split.
  - intros Ho. eexists.
    unfold query_section, bind, image_open, raise. now rewrite Ho.
  - intros u Hu. unfold query_section, bind, raise. rewrite Hu. simpl.
    split; [now eexists | now repeat split].
Qed.

Lemma nothing_written_without_decodable_upload_witness :
  let w := mkWorld (fun _ => None) None None ["temp/dog.png"] [] in
  (exists e,
     fst (query_section eps_float64 embed_unit_x (insertion_argsort true)
            (fun _ => false) None "images/01.png" twins twin_names w)
     = Raised e)
  /\ w_temp (snd (query_section eps_float64 embed_unit_x
                    (insertion_argsort true) (fun _ => true)
                    (Some (mkUpload "notes.png" false)) "images/01.png"
                    twins twin_names w))
     = ["temp/dog.png"].
Proof.
  intros w.
  destruct (@nothing_written_without_decodable_upload eps_float64 embed_unit_x
              (insertion_argsort true) (fun _ => false) "images/01.png"
              twins twin_names w) as (_ & Hf & _).
  destruct (@nothing_written_without_decodable_upload eps_float64 embed_unit_x
              (insertion_argsort true) (fun _ => true) "images/01.png"
              twins twin_names w) as (_ & _ & Hu).
  split; [exact (Hf eq_refl)|].
  destruct (Hu (mkUpload "notes.png" false) eq_refl) as (_ & _ & _ & _ & Ht).
  exact Ht.
Defined.

(** A run of the script without an upload leaves the world as
    [load_image_features] left it: beyond the cache the load may build,
    it writes and removes nothing, whatever the selection and the search
    do. *)
Theorem script_without_upload_only_loads (eps : R)
  (extract_features : string -> outcome vec) (argsort : list R -> list nat)
  (opens : string -> bool) (choice : string) (w : world) :
  snd (script eps extract_features argsort opens choice None w)
  = snd (load_image_features eps extract_features IMAGE_DIR w).
Proof.
  unfold script. unfold bind at 1.
  destruct (load_image_features eps extract_features IMAGE_DIR w)
    as [[[files feats]|e] w1]; [|reflexivity]. simpl.
  destruct (Nat.eqb (List.length files) 0); [reflexivity|].
  unfold bind at 1. unfold lift at 1.
  destruct (list_index choice (map basename files)) as [i|e]; [|reflexivity].
  unfold bind at 1. unfold lift at 1.
  destruct (index files i) as [sel|e]; [|reflexivity].
  apply query_section_none_world.
Qed.

(** When the upload decodes, the search returns and every result opens,
    the query section returns and leaves under [temp/] exactly what was
    there before, less the path of the upload: the file it wrote is
    removed - and so is an older file of the same name. *)
Theorem upload_removed_after_search (eps : R)
  (extract_features : string -> outcome vec) (argsort : list R -> list nat)
  (opens : string -> bool) (u : upload) (selected_path : string)
  (image_feats : matrix) (image_files : list string) (w : world)
  (res : list (string * R)) :
  up_decodes u = true ->
  find_similar_images eps extract_features argsort
    (join "temp" (up_name u)) image_feats image_files TOP_N = Returned res ->
  Forall (fun r => opens (fst r) = true) res ->
  query_section eps extract_features argsort opens (Some u) selected_path
    image_feats image_files w
  = (Returned tt, without_temp w (join "temp" (up_name u)))
  /\ ~ In (join "temp" (up_name u))
         (w_temp (without_temp w (join "temp" (up_name u)))).
Proof.
  intros Hd Hf Ho. split.
  - unfold query_section, bind, save_temp, ret, lift, raise.
    rewrite Hd. fold (saved w (join "temp" (up_name u))). rewrite Hf.
    rewrite (show_results_ok opens (saved w (join "temp" (up_name u))) Ho).
    apply remove_after_save.
  - unfold without_temp. simpl. intros H.
    apply filter_In in H as [_ H]. now rewrite String.eqb_refl in H.
Qed.

Lemma upload_removed_after_search_witness :
  exists w',
    query_section eps_float32 embed_unit_x (insertion_argsort true)
      (fun _ => true) (Some cat_upload) "images/01.png" twins twin_names
      (mkWorld (fun _ => None) None None ["temp/cat.png"; "temp/dog.png"] [])
    = (Returned tt, w')
    /\ w_temp w' = ["temp/dog.png"].
Proof.
  destruct (@upload_removed_after_search eps_float32 embed_unit_x
              (insertion_argsort true) (fun _ => true) cat_upload
              "images/01.png" twins twin_names
              (mkWorld (fun _ => None) None None
                 ["temp/cat.png"; "temp/dog.png"] [])
              _ eq_refl (twins_ranked 5)) as [H _].
  - apply Forall_forall. reflexivity.
  - eexists. split; [exact H | reflexivity].
Defined.

End ScriptExtras.

(* ================================================================== *)
(** ** Every image is scanned once *)
(* ================================================================== *)

Module ScanUnique.

Import PyStr Scanner ScannerFacts ScannerMore.
Local Open Scope list_scope.
Local Open Scope string_scope.

(** A name a directory entry can have: not empty, no slash. *)
Definition entry_name (n : string) : Prop :=
  slash_free n = true /\ n <> EmptyString.

(** A directory as a file system holds it: in each directory the files
    have distinct names, the sub-directories have distinct names, and
    every name is an entry name. *)
#[warnings="-register-all"]
Inductive well_formed : dir -> Prop :=
| well_formed_dir fs subs :
    NoDup fs ->
    NoDup (map fst subs) ->
    Forall entry_name fs ->
    Forall (fun nd => entry_name (fst nd) /\ well_formed (snd nd)) subs ->
    well_formed (Dir fs subs).

(** The paths of the files below a directory, relative to it. *)
Fixpoint rel_files (d : dir) : list string :=
  match d with
  | Dir fs subs =>
      fs ++ flat_map (fun nd => map (fun r => fst nd ++ "/" ++ r)
                                    (rel_files (snd nd))) subs
  end.

(** What [os.path.join] puts between a directory and a name. *)
Definition sep (a : string) : string :=
  if (a =? EmptyString) || endswith a "/" then EmptyString else "/".

Lemma join_sep (a b : string) :
  slash_free b = true -> join a b = a ++ sep a ++ b.
Proof.
  intros H. unfold join, sep. rewrite (slash_free_no_lead b H).
  destruct ((a =? EmptyString) || endswith a "/"); reflexivity.
Qed.

Lemma slash_free_app (a b : string) :
  slash_free (a ++ b) = slash_free a && slash_free b.
Proof.
  induction a as [|c a IH]; simpl; [reflexivity|].
  rewrite IH. now rewrite andb_assoc.
Qed.

Lemma append_inj_l (a x y : string) : a ++ x = a ++ y -> x = y.
Proof. induction a as [|c a IH]; simpl; intros H; [exact H|]. apply IH. congruence. Qed.

Lemma not_ends_with_slash (n : string) :
  entry_name n -> forall x p, x ++ n <> p ++ "/".
Proof.
  intros [Hs Hne] x. induction x as [|c x IH]; intros p H; simpl in H.
  - subst n. rewrite slash_free_app in Hs. simpl in Hs.
    now rewrite andb_false_r in Hs.
  - destruct p as [|c' p]; simpl in H.
    + injection H as _ H. destruct x; simpl in H; [contradiction | discriminate].
    + injection H as _ H. now apply (IH p).
Qed.

Lemma sep_after_entry (x n : string) : entry_name n -> sep (x ++ n) = "/".
Proof.
  intros Hn. unfold sep.
  replace (x ++ n =? EmptyString) with false.
  - simpl. destruct (endswith (x ++ n) "/") eqn:E; [|reflexivity].
    apply endswith_spec in E as (p & Hp).
    now apply (@not_ends_with_slash n Hn) in Hp.
  - symmetry. apply String.eqb_neq. destruct Hn as [_ Hne].
    destruct x; simpl; [exact Hne | discriminate].
Qed.

(** Two slash-free names followed by a slash and something agree when the
    whole strings agree. *)
Lemma first_component (n : string) :
  forall n' r r',
    slash_free n = true -> slash_free n' = true ->
    n ++ "/" ++ r = n' ++ "/" ++ r' -> n = n'.
Proof.
  induction n as [|c n IH]; intros [|c' n'] r r' Hn Hn' H; simpl in *.
  - reflexivity.
  - injection H as <- _. discriminate.
  - injection H as -> _. discriminate.
  - injection H as <- H. apply andb_prop in Hn as [_ Hn].
    apply andb_prop in Hn' as [_ Hn']. f_equal. now apply (IH n' r r').
Qed.

(** The image of a duplicate-free list under a one-to-one function. *)
Lemma one_to_one_image_NoDup (A B : Type) (g : A -> B) :
  (forall x y, g x = g y -> x = y) ->
  forall l, NoDup l -> NoDup (map g l).
Proof.
  intros Hinj l. induction 1 as [|x l Hx _ IH]; simpl; constructor; [|exact IH].
  intros Hin. apply in_map_iff in Hin as (y & Hy & Hin).
  apply Hinj in Hy. now subst.
Qed.

(** Keeping some elements keeps their images distinct. *)
Lemma kept_images_NoDup (A B : Type) (g : A -> B) (keep : A -> bool) :
  forall l, NoDup (map g l) -> NoDup (map g (filter keep l)).
Proof.
  intros l Hall. induction l as [|x l IH]; simpl; [constructor|].
  inversion Hall as [|? ? Hx Hl]; subst.
  destruct (keep x); simpl; [|now apply IH].
  constructor; [|now apply IH].
  intros Hin. apply Hx. apply in_map_iff in Hin as (y & Hy & Hin).
  apply in_map_iff. exists y. split; [exact Hy|].
  now apply filter_In in Hin as [Hin _].
Qed.

(** The paths of [files_under] are the relative paths after the root. *)
Lemma files_under_rel (d : dir) :
  well_formed d ->
  forall top,
    map path_of (files_under top d)
    = map (fun r => top ++ sep top ++ r) (rel_files d).
Proof.
  induction d as [fs subs IH] using dir_rect'. intros Hwf top.
  inversion Hwf as [? ? _ _ Hfs Hsubs]; subst.
  cbn [files_under rel_files]. rewrite !map_app. f_equal.
  - rewrite map_map. apply map_ext_in. intros f Hf. unfold path_of. simpl.
    rewrite Forall_forall in Hfs. apply join_sep, (Hfs f Hf).
  - rewrite !map_flat_map. clear Hwf Hfs.
    induction subs as [|[n d'] subs IHs]; simpl; [reflexivity|].
    inversion IH as [|? ? IHd IHrest]; subst.
    inversion Hsubs as [|? ? [Hn Hd'] Hsubs']; subst. simpl in *.
    rewrite (IHs IHrest Hsubs'). f_equal.
    rewrite (IHd Hd' (join top n)), map_map.
    apply map_ext. intros r.
    rewrite (@join_sep top n (proj1 Hn)).
    replace (top ++ sep top ++ n) with ((top ++ sep top) ++ n)
      by apply append_assoc.
    rewrite (@sep_after_entry (top ++ sep top) n Hn).
    now rewrite !append_assoc.
Qed.

Lemma rel_files_under_sub (n r : string) : slash_free (n ++ "/" ++ r) = false.
Proof.
  rewrite slash_free_app. simpl. now rewrite andb_false_r.
Qed.

Lemma rel_files_NoDup (d : dir) : well_formed d -> NoDup (rel_files d).
Proof.
  induction d as [fs subs IH] using dir_rect'. intros Hwf.
  inversion Hwf as [? ? Hnd Hns Hfs Hsubs]; subst.
  cbn [rel_files]. apply NoDup_app; [exact Hnd| |].
  - clear Hwf Hnd Hfs.
    induction subs as [|[n d'] subs IHs]; simpl; [constructor|].
    inversion IH as [|? ? IHd IHrest]; subst.
    inversion Hsubs as [|? ? [Hn Hd'] Hsubs']; subst.
    inversion Hns as [|? ? Hnot Hns']; subst. simpl in *.
    apply NoDup_app.
    + apply one_to_one_image_NoDup; [|now apply IHd].
      intros x y H. apply append_inj_l in H. now injection H.
    + now apply IHs.
    + intros p Hp Hq. apply in_map_iff in Hp as (r & <- & _).
      apply in_flat_map in Hq as ([n' d''] & Hin & Hq). simpl in Hq.
      apply in_map_iff in Hq as (r' & Hq & _).
      rewrite Forall_forall in Hsubs'.
      destruct (Hsubs' _ Hin) as [[Hn' _] _]. simpl in Hn'.
      apply (@first_component n' n r' r Hn' (proj1 Hn)) in Hq.
      apply Hnot. apply in_map_iff. exists (n', d''). now split.
  - intros f Hf Hq. rewrite Forall_forall in Hfs.
    destruct (Hfs f Hf) as [Hsf _].
    apply in_flat_map in Hq as ([n d'] & _ & Hq). simpl in Hq.
    apply in_map_iff in Hq as (r & <- & _).
    exact (Bool.eq_true_false_abs _ Hsf (rel_files_under_sub n r)).
Qed.

(** In a well-formed directory tree no path is scanned twice: the file
    names list holds every image once. *)
Theorem scan_has_no_duplicates (root_dir : string) (d : dir) :
  well_formed d -> NoDup (get_all_image_files root_dir d).
Proof.
  intros Hwf. unfold get_all_image_files.
  apply (Permutation_NoDup (PySorted.sorted_perm _)).
  rewrite collect_files_walk. apply kept_images_NoDup.
  rewrite (files_under_rel Hwf). apply one_to_one_image_NoDup.
  - intros x y H. now apply append_inj_l, append_inj_l in H.
  - now apply rel_files_NoDup.
Qed.

Ltac distinct_strings :=
  repeat (constructor; [simpl; intuition discriminate|]); constructor.

Lemma small_tree_well_formed :
  well_formed
    (Dir ["b.JPG"; "notes.txt"; "jpg"; ".png"]
         [("sub", Dir ["a.TiFf"; "c.gif"] []); ("z", Dir [] [])]).
Proof.
  constructor.
  - distinct_strings.
  - distinct_strings.
  - repeat (constructor; [split; [reflexivity | discriminate]|]). constructor.
  - constructor; [|constructor; [|constructor]].
    + split; [split; [reflexivity | discriminate]|].
      constructor; [distinct_strings | constructor | | constructor].
      repeat (constructor; [split; [reflexivity | discriminate]|]). constructor.
    + split; [split; [reflexivity | discriminate]|].
      constructor; constructor.
Qed.

Lemma scan_has_no_duplicates_witness :
  NoDup ["images/.png"; "images/b.JPG"; "images/sub/a.TiFf"].
Proof.
  rewrite <- scan_small_tree.
  apply (@scan_has_no_duplicates "images"
           (Dir ["b.JPG"; "notes.txt"; "jpg"; ".png"]
                [("sub", Dir ["a.TiFf"; "c.gif"] []); ("z", Dir [] [])])).
  exact small_tree_well_formed.
Defined.

End ScanUnique.

(* ================================================================== *)
(** ** The scan against the wording of the specification *)
(* ================================================================== *)

Module ScanClaim.

Import PyStr Scanner ScannerFacts ScannerMore ScanUnique.
Local Open Scope list_scope.
Local Open Scope string_scope.

(** *** What the specification asks for, in its own terms

    The definitions of this part are written from the wording of the
    specification, with character codes and explicit slashes; they use
    neither [lower] nor [join]. *)

(** A small letter, by its character code. *)
Definition small_letter (l : ascii) : Prop :=
  (97 <= nat_of_ascii l)%nat /\ (nat_of_ascii l <= 122)%nat.

(** The capital of a small letter stands 32 codes before it. *)
Definition capital_of (l : ascii) : ascii :=
  ascii_of_nat (nat_of_ascii l - 32).

(** [c] is the character [l], or the capital of the small letter [l]. *)
Definition same_letter (c l : ascii) : Prop :=
  c = l \/ (small_letter l /\ c = capital_of l).

(** [x] spells [pat] when the case of the letters of [x] is ignored. *)
Inductive spells : string -> string -> Prop :=
| spells_nil : spells EmptyString EmptyString
| spells_cons c l x pat :
    same_letter c l -> spells x pat -> spells (String c x) (String l pat).

(** The name ends, whatever the letter case, in a dot and one of the
    allowed extensions. *)
Definition image_name (f : string) : Prop :=
  exists e stem x, In e extensions /\ f = stem ++ x /\ spells x ("." ++ e).

(** [image_below d r]: [r] is the path, relative to the directory [d], of
    an image file in [d] or below it, the names of the directories on the
    way and the name of the file separated by slashes. *)
Inductive image_below : dir -> string -> Prop :=
| image_here fs subs f :
    In f fs -> image_name f -> image_below (Dir fs subs) f
| image_deeper fs subs n d r :
    In (n, d) subs -> image_below d r ->
    image_below (Dir fs subs) (n ++ "/" ++ r).

(** *** The test of line 55 is the case-insensitive match *)

Definition capital (l : ascii) : Prop :=
  (65 <= nat_of_ascii l)%nat /\ (nat_of_ascii l <= 90)%nat.

Fixpoint free_of_capitals (s : string) : Prop :=
  match s with
  | EmptyString => True
  | String l s' => ~ capital l /\ free_of_capitals s'
  end.

Lemma lower_ascii_same_letter (c l : ascii) :
  ~ capital l -> (lower_ascii c = l <-> same_letter c l).
Proof.
  unfold capital, same_letter, small_letter, capital_of, lower_ascii.
  intros Hl. pose proof (nat_ascii_bounded c) as Hc.
  destruct ((65 <=? nat_of_ascii c)%nat && (nat_of_ascii c <=? 90)%nat) eqn:E.
  - apply andb_prop in E as [E1 E2].
    apply Nat.leb_le in E1, E2. split.
    + intros <-. right.
      rewrite nat_ascii_embedding by lia.
      split; [lia|].
      replace (nat_of_ascii c + 32 - 32)%nat with (nat_of_ascii c) by lia.
      now rewrite ascii_nat_embedding.
    + intros [->|[Hs ->]]; [exfalso; apply Hl; lia|].
      pose proof (nat_ascii_bounded l) as Hb.
      rewrite nat_ascii_embedding by lia.
      replace (nat_of_ascii l - 32 + 32)%nat with (nat_of_ascii l) by lia.
      apply ascii_nat_embedding.
  - split; [intros <-; now left|].
    intros [->|[Hs ->]]; [reflexivity | exfalso].
    pose proof (nat_ascii_bounded l) as Hb.
    rewrite nat_ascii_embedding in E by lia.
    apply andb_false_iff in E as [E|E]; apply Nat.leb_gt in E; lia.
Qed.

Lemma lower_spells (x : string) :
  forall pat, free_of_capitals pat -> (lower x = pat <-> spells x pat).
Proof.
  induction x as [|c x IH]; intros [|l pat] Hp; simpl.
  - split; [constructor | reflexivity].
  - split; [discriminate | intros H; inversion H].
  - split; [discriminate | intros H; inversion H].
  - destruct Hp as [Hl Hp]. split.
    + intros [= Hc Hx]. constructor.
      * now apply lower_ascii_same_letter.
      * now apply IH.
    + intros H. inversion H; subst. f_equal.
      * now apply lower_ascii_same_letter.
      * now apply IH.
Qed.

Lemma extension_free_of_capitals (e : string) :
  In e extensions -> free_of_capitals ("." ++ e).
Proof.
  unfold extensions. simpl.
  intros [<-|[<-|[<-|[<-|[<-|[]]]]]]; simpl; repeat split;
    intros [H1 H2]; cbv in H1, H2; lia.
Qed.

Lemma is_image_name_image_name (f : string) :
  is_image_name f = true <-> image_name f.
Proof.
  rewrite is_image_name_spec. unfold has_image_ext, image_name.
  split; intros (e & stem & x & Hin & Hf & Hx); exists e, stem, x;
    (split; [exact Hin|]); (split; [exact Hf|]);
    now apply (@lower_spells x _ (@extension_free_of_capitals e Hin)).
Qed.

(** *** The paths are the root, a slash and the relative path *)

(** The relative paths of the files the scan keeps. *)
Fixpoint rel_images (d : dir) : list string :=
  match d with
  | Dir fs subs =>
      filter is_image_name fs
        ++ flat_map (fun nd => map (fun r => fst nd ++ "/" ++ r)
                                   (rel_images (snd nd))) subs
  end.

Lemma rel_images_below (d : dir) :
  forall r, In r (rel_images d) <-> image_below d r.
Proof.
  induction d as [fs subs IH] using dir_rect'. intros r. split.
  - cbn [rel_images]. intros Hin. apply in_app_or in Hin as [Hin|Hin].
    + apply filter_In in Hin as [Hin Himg].
      apply image_here; [exact Hin | now apply is_image_name_image_name].
    + apply in_flat_map in Hin as ([n d'] & Hnd & Hin). simpl in Hin.
      apply in_map_iff in Hin as (r' & <- & Hr').
      rewrite Forall_forall in IH.
      apply image_deeper with d'; [exact Hnd|].
      now apply (IH _ Hnd r').
  - intros H. inversion H as [? ? f Hin Himg|? ? n d' r' Hnd Hr']; subst;
      cbn [rel_images]; apply in_or_app.
    + left. apply filter_In. split; [exact Hin|].
      now apply is_image_name_image_name.
    + right. apply in_flat_map. exists (n, d'). split; [exact Hnd|].
      simpl. apply in_map_iff. exists r'. split; [reflexivity|].
      rewrite Forall_forall in IH. now apply (IH _ Hnd r').
Qed.

Lemma images_under_rel (d : dir) :
  well_formed d ->
  forall top,
    map path_of (filter image_entry (files_under top d))
    = map (fun r => top ++ sep top ++ r) (rel_images d).
Proof.
  induction d as [fs subs IH] using dir_rect'. intros Hwf top.
  inversion Hwf as [? ? _ _ Hfs Hsubs]; subst.
  cbn [files_under rel_images]. rewrite filter_app, !map_app. f_equal.
  - clear IH Hwf Hsubs. induction fs as [|f fs IHf]; simpl; [reflexivity|].
    inversion Hfs as [|? ? Hf Hfs']; subst.
    unfold image_entry at 1. simpl.
    destruct (is_image_name f); simpl; [|now apply IHf].
    f_equal; [|now apply IHf].
    unfold path_of. simpl. apply join_sep, Hf.
  - rewrite filter_flat_map, !map_flat_map. clear Hwf Hfs.
    induction subs as [|[n d'] subs IHs]; simpl; [reflexivity|].
    inversion IH as [|? ? IHd IHrest]; subst.
    inversion Hsubs as [|? ? [Hn Hd'] Hsubs']; subst. simpl in *.
    rewrite (IHs IHrest Hsubs'). f_equal.
    rewrite (IHd Hd' (join top n)), map_map.
    apply map_ext. intros r.
    rewrite (@join_sep top n (proj1 Hn)).
    replace (top ++ sep top ++ n) with ((top ++ sep top) ++ n)
      by apply append_assoc.
    rewrite (@sep_after_entry (top ++ sep top) n Hn).
    now rewrite !append_assoc.
Qed.

Lemma scan_members (root_dir : string) (d : dir) (p : string) :
  well_formed d ->
  (In p (get_all_image_files root_dir d)
   <-> exists r, image_below d r /\ p = root_dir ++ sep root_dir ++ r).
Proof.
  intros Hwf. unfold get_all_image_files.
  rewrite collect_files_walk, (images_under_rel Hwf). split.
  - intros Hin.
    apply (Permutation_in _ (Permutation_sym (PySorted.sorted_perm _))) in Hin.
    apply in_map_iff in Hin as (r & <- & Hr).
    exists r. split; [now apply rel_images_below | reflexivity].
  - intros (r & Hr & ->).
    apply (Permutation_in _ (PySorted.sorted_perm _)).
    apply in_map_iff. exists r. split; [reflexivity|].
    now apply rel_images_below.
Qed.

Lemma sep_slash (a : string) :
  a <> EmptyString -> endswith a "/" = false -> sep a = "/".
Proof.
  intros Hne He. unfold sep. rewrite He.
  replace (a =? EmptyString) with false; [reflexivity|].
  symmetry. now apply String.eqb_neq.
Qed.

Lemma sep_none (a : string) : endswith a "/" = true -> sep a = EmptyString.
Proof. intros He. unfold sep. rewrite He. now rewrite orb_true_r. Qed.

(** *** C5 *)

(** C5: [get_all_image_files] keeps a file name exactly when it ends,
    whatever the case of its letters, in a dot and one of jpg, jpeg, png,
    bmp, tiff; its result is sorted lexicographically on the full path;
    the result does not depend on the order in which the entries of the
    directories are enumerated, so that two scans of the same directory
    return the same sequence; and for a directory tree as a file system
    holds it, the result lists without repetition exactly the image files
    in or below the root directory, each as the root, a slash, the names
    of the directories on the way followed by a slash each, and the name
    of the file (a root that already ends in a slash gets no second one). *)
Theorem C5_scan_exact_sorted_deterministic (root_dir : string) (d : dir) :
  (forall f, is_image_name f = true <-> image_name f)
  /\ StronglySorted str_le (get_all_image_files root_dir d)
  /\ (forall d', reordered d d' ->
                 get_all_image_files root_dir d' = get_all_image_files root_dir d)
  /\ (well_formed d ->
      NoDup (get_all_image_files root_dir d)
      /\ (root_dir <> EmptyString -> endswith root_dir "/" = false ->
          forall p, In p (get_all_image_files root_dir d) <->
                    exists r, image_below d r /\ p = root_dir ++ "/" ++ r)
      /\ (endswith root_dir "/" = true ->
          forall p, In p (get_all_image_files root_dir d) <->
                    exists r, image_below d r /\ p = root_dir ++ r)).
Proof.
  split; [exact is_image_name_image_name|].
  split; [apply PySorted.sorted_sorted|].
  split.
  - intros d' Hr. unfold get_all_image_files.
    apply PySorted.sorted_perm_eq. symmetry. now apply collect_reordered.
  - intros Hwf. split; [|split].
    + unfold get_all_image_files.
      apply (Permutation_NoDup (PySorted.sorted_perm _)).
      rewrite collect_files_walk. apply kept_images_NoDup.
      rewrite (files_under_rel Hwf). apply one_to_one_image_NoDup.
      * intros x y H. now apply append_inj_l, append_inj_l in H.
      * now apply rel_files_NoDup.
    + intros Hne He p. rewrite (scan_members root_dir p Hwf).
      now rewrite (sep_slash Hne He).
    + intros He p. rewrite (scan_members root_dir p Hwf).
      now rewrite (sep_none root_dir He).
Qed.

Definition small_tree : dir :=
  Dir ["b.JPG"; "notes.txt"; "jpg"; ".png"]
      [("sub", Dir ["a.TiFf"; "c.gif"] []); ("z", Dir [] [])].

(** The scan of a small tree: [b.JPG] and [sub/a.TiFf] are found under
    their full paths, capitals in the extension notwithstanding;
    [notes.txt], [sub/c.gif] and the file [jpg], which has no dot, are
    not; and a bare name is not in the result. *)
Lemma C5_scan_exact_sorted_deterministic_witness :
  In "images/b.JPG" (get_all_image_files "images" small_tree)
  /\ In "images/sub/a.TiFf" (get_all_image_files "images" small_tree)
  /\ In "images/.png" (get_all_image_files "images" small_tree)
  /\ ~ In "images/notes.txt" (get_all_image_files "images" small_tree)
  /\ ~ In "images/jpg" (get_all_image_files "images" small_tree)
  /\ ~ In "images/sub/c.gif" (get_all_image_files "images" small_tree)
  /\ ~ In "b.JPG" (get_all_image_files "images" small_tree)
  /\ ~ In "images/a.TiFf" (get_all_image_files "images" small_tree)
  /\ NoDup (get_all_image_files "images" small_tree)
  /\ StronglySorted str_le (get_all_image_files "images" small_tree).
Proof.
  destruct (C5_scan_exact_sorted_deterministic "images" small_tree)
    as (Hname & Hsorted & _ & Hwf).
  destruct (Hwf small_tree_well_formed) as (Hdistinct & Hin & _).
  specialize (Hin ltac:(discriminate) eq_refl).
  assert (Hdot : same_letter "."%char "."%char) by now left.
  assert (Hcap : forall c l, small_letter l -> c = capital_of l ->
                             same_letter c l) by (intros; right; now split).
  assert (Hlow : forall l : ascii, same_letter l l) by (intros; now left).
  assert (Hno : forall f, is_image_name f = false -> ~ image_name f).
  { intros f Hf Hi. apply Hname in Hi. congruence. }
  assert (Hout : forall r, ~ image_below small_tree r ->
                           ~ In ("images/" ++ r)
                               (get_all_image_files "images" small_tree)).
  { intros r Hr Hp. apply Hin in Hp as (r' & Hr' & Heq).
    injection Heq as <-. contradiction. }
  split; [|split; [|split]].
  - apply Hin. exists "b.JPG". split; [|reflexivity].
    apply image_here; [simpl; tauto|].
    exists "jpg", "b", ".JPG". split; [simpl; tauto|]. split; [reflexivity|].
    repeat (constructor; [first [exact Hdot
                                | apply Hcap; [split; cbv; lia | reflexivity]]|]).
    constructor.
  - apply Hin. exists "sub/a.TiFf". split; [|reflexivity].
    apply (@image_deeper _ _ "sub" (Dir ["a.TiFf"; "c.gif"] []) "a.TiFf");
      [simpl; tauto|].
    apply image_here; [simpl; tauto|].
    exists "tiff", "a", ".TiFf". split; [simpl; tauto|]. split; [reflexivity|].
    repeat (constructor; [first [apply Hlow
                                | apply Hcap; [split; cbv; lia | reflexivity]]|]).
    constructor.
  - apply Hin. exists ".png". split; [|reflexivity].
    apply image_here; [simpl; tauto|].
    exists "png", EmptyString, ".png".
    split; [simpl; tauto|]. split; [reflexivity|].
    repeat (constructor; [apply Hlow|]). constructor.
  - assert (Hsub : forall r, ~ image_below (Dir ["a.TiFf"; "c.gif"] []) r
                             \/ r = "a.TiFf").
    { intros r. destruct (string_dec r "a.TiFf") as [->|Hr]; [now right|left].
      intros H. inversion H as [? ? f Hf Hi|? ? n d' r' Hnd _]; subst.
      - simpl in Hf. destruct Hf as [<-|[<-|[]]]; [now apply Hr|].
        now apply (Hno "c.gif").
      - destruct Hnd. }
    assert (Hz : forall r, ~ image_below (Dir [] []) r).
    { intros r H. inversion H as [? ? f Hf _|? ? n d' r' Hnd _]; subst;
        [destruct Hf | destruct Hnd]. }
    assert (Htop : forall r, image_below small_tree r ->
                             r = "b.JPG" \/ r = ".png" \/ r = "sub/a.TiFf").
    { intros r H. inversion H as [? ? f Hf Hi|? ? n d' r' Hnd Hr']; subst.
      - simpl in Hf. destruct Hf as [<-|[<-|[<-|[<-|[]]]]]; auto.
        + now apply (Hno "notes.txt") in Hi.
        + now apply (Hno "jpg") in Hi.
      - simpl in Hnd. destruct Hnd as [[= <- <-]|[[= <- <-]|[]]].
        + destruct (Hsub r') as [Hn| ->]; [contradiction | auto].
        + now apply Hz in Hr'. }
    assert (Hnot : forall r, r <> "b.JPG" -> r <> ".png" -> r <> "sub/a.TiFf" ->
                             ~ image_below small_tree r).
    { intros r H1 H2 H3 H. destruct (Htop r H) as [E|[E|E]]; contradiction. }
    split; [|split; [|split; [|split; [|split]]]].
    + apply (Hout "notes.txt"). apply Hnot; discriminate.
    + apply (Hout "jpg"). apply Hnot; discriminate.
    + apply (Hout "sub/c.gif"). apply Hnot; discriminate.
    + intros Hp. apply Hin in Hp as (r' & _ & Heq). discriminate.
    + intros Hp. apply Hin in Hp as (r' & Hr' & Heq).
      injection Heq as <-. revert Hr'. apply Hnot; discriminate.
    + split; [exact Hdistinct | exact Hsorted].
Defined.

End ScanClaim.

(* ================================================================== *)
(** ** From the build to the search *)
(* ================================================================== *)

Module EndToEnd.

Import Py PyStr Scanner Linalg LinalgFacts LinalgMore Npy NpyFacts Ranker.
Import ArgsortFacts RankerFacts RankerClaims RankerMore RankerExtras Store.
Import FeatureStore FeatureStoreFacts StoreMore StoreExtras Worlds.
Local Open Scope R_scope.

(** The file names a build returns are the scan of the directory, in
    lexicographic order of the paths: this is the order of the rows. *)
Theorem build_filenames_are_the_sorted_scan (eps : R)
  (extract_features : string -> outcome vec) (image_dir : string)
  (w w' : world) (fs : list string) (X : matrix) :
  compute_and_cache_features eps extract_features image_dir w
  = (Returned (fs, X), w') ->
  fs = scanned w image_dir
  /\ StronglySorted str_le fs
  /\ List.length X = List.length fs.
Proof.
  intros H.
  assert (Hsorted : StronglySorted str_le (scanned w image_dir)).
  { unfold scanned. destruct (w_dirs w image_dir); [|constructor].
    apply PySorted.sorted_sorted. }
  destruct fs as [|f fs'].
  - destruct (scanned w image_dir) as [|f0 fs0] eqn:Es.
    + rewrite (@build_empty eps extract_features image_dir w Es) in H.
      injection H as <- _. repeat split. constructor.
    + assert (Hne : scanned w image_dir <> []) by (rewrite Es; discriminate).
      destruct (@build_nonempty eps extract_features image_dir w Hne)
        as (evs & Hb).
      rewrite Hb, Es in H.
      destruct (obind (omap extract_features (f0 :: fs0)) (normalize eps));
        discriminate.
  - assert (Hne : f :: fs' <> []) by discriminate.
    destruct (build_returned _ _ _ _ H Hne)
      as (vs & evs & Hfs & Ho & _ & -> & _).
    split; [exact Hfs|]. split; [now rewrite Hfs|].
    now rewrite length_map, (omap_length _ _ Ho).
Qed.

Lemma build_filenames_are_the_sorted_scan_witness :
  ["images/a.png"%string] = scanned w_one_image IMAGE_DIR
  /\ StronglySorted str_le ["images/a.png"%string].
Proof.
  destruct (@build_filenames_are_the_sorted_scan eps_float32 embed_unit_x
              IMAGE_DIR w_one_image _ _ _ one_image_build) as (H1 & H2 & _).
  split; [exact H1 | exact H2].
Defined.

(** Searching the store a build has just returned for one of its own
    images returns: the rows have the dimension of the query embedding and
    there is one name per row, so nothing raises.  The result has
    [min top_n n] entries for a corpus of [n] images, each under the name
    of a scanned file.  The build works with the [eps] of float32, the
    search with that of float64: the two are kept apart. *)
Theorem build_then_search_own_image (eps_build eps_search : R)
  (extract_features : string -> outcome vec) (argsort : list R -> list nat)
  (image_dir : string) (w w' : world) (fs : list string) (X : matrix)
  (j : nat) (v : vec) (top_n : Z) :
  argsort_spec argsort ->
  compute_and_cache_features eps_build extract_features image_dir w
  = (Returned (fs, X), w') ->
  (j < List.length fs)%nat ->
  extract_features (nth j fs EmptyString) = Returned v ->
  (1 <= top_n)%Z ->
  exists res,
    find_similar_images eps_search extract_features argsort
      (nth j fs EmptyString) X fs top_n
    = Returned res
    /\ List.length res = Nat.min (Z.to_nat top_n) (List.length fs)
    /\ Forall (fun e => In (fst e) (scanned w image_dir)) res.
Proof.
  intros Ha H Hj He Hn.
  assert (Hne : fs <> []) by (intros ->; simpl in Hj; lia).
  destruct (build_returned _ _ _ _ H Hne)
    as (vs & evs & Hfs & Ho & Hw & HX & _).
  pose proof (omap_length _ _ Ho) as Hl.
  assert (Hvj : v = nth j vs []).
  { pose proof (@omap_nth _ _ extract_features fs EmptyString [] vs j Ho Hj)
      as Hvj. rewrite He in Hvj. now injection Hvj. }
  assert (Hlen : List.length v = ncols vs).
  { destruct Hw as (_ & _ & Hall). rewrite Forall_forall in Hall.
    rewrite Hvj. apply Hall, nth_In. lia. }
  assert (HXw : well_shaped (List.length v) X).
  { rewrite Hlen, HX. destruct Hw as (Hvs & HD & Hall).
    repeat split; [destruct vs; [contradiction | discriminate] | exact HD|].
    apply Forall_forall. intros r Hr.
    apply in_map_iff in Hr as (r0 & <- & Hr0).
    rewrite normalize_row_length. rewrite Forall_forall in Hall.
    now apply Hall. }
  assert (HXl : List.length X = List.length fs)
    by (rewrite HX, length_map; lia).
  assert (HXl' : (List.length X <= List.length fs)%nat) by lia.
  destruct (@find_similar_images_ok eps_search extract_features argsort
              (nth j fs EmptyString) v X fs top_n Ha He HXw HXl')
    as (_ & _ & Hf).
  set (sims := scores eps_search (normalize_row eps_search v) X) in *.
  assert (Hsl : List.length sims = List.length X) by apply scores_length.
  eexists. split; [exact Hf|]. split.
  - rewrite length_map, (top_indices_length Ha) by lia. now rewrite Hsl, HXl.
  - apply Forall_forall. intros e Hin.
    apply in_map_iff in Hin as (i & <- & Hi). unfold entry. simpl.
    pose proof (top_indices_in_range Ha sims top_n) as Hr.
    rewrite Forall_forall in Hr. specialize (Hr i Hi).
    rewrite <- Hfs. apply nth_In. lia.
Qed.

Lemma build_then_search_own_image_witness :
  exists res,
    find_similar_images eps_float64 embed_unit_x (insertion_argsort true)
      "images/a.png" (map (normalize_row eps_float32) [[1; 0]])
      ["images/a.png"%string] 5
    = Returned res
    /\ List.length res = 1%nat
    /\ Forall (fun e => In (fst e) (scanned w_one_image IMAGE_DIR)) res.
Proof.
  apply (@build_then_search_own_image eps_float32 eps_float64 embed_unit_x
           (insertion_argsort true) IMAGE_DIR w_one_image _
           ["images/a.png"%string] (map (normalize_row eps_float32) [[1; 0]])
           0%nat [1; 0] 5 (insertion_argsort_spec true) one_image_build).
  - simpl. lia.
  - reflexivity.
  - lia.
Defined.

End EndToEnd.
